(** * two1 wallet daemon: the Unix-socket JSON-RPC layer

    A shallow embedding of [two1/lib/wallet/socket_rpc_server.py]:
    the per-connection handler loop of [UnixSocketJSONRPCServer], the
    server constructor with its liveness probe, and the client proxy
    [UnixSocketServerProxy].

    Conventions.
    - [bytes] is a list of bytes; [str] is text, represented by its
      UTF-8 encoding, so [decode] is a validity check and [encode] is
      the identity on the representation.
    - Python exceptions are values of [exn]; only subclasses of
      [Exception] are modelled ([KeyboardInterrupt] and [SystemExit]
      are not).
    - Code that can raise lives in the monad [M S A := S -> result A * S]:
      state changes made before a [raise] survive it, as in Python.
    - Everything the environment decides during one pass of the handler
      loop (poll, recv, the stop flag, the callback, the lock, the
      dispatcher, sendall) is read from a [world] record. *)

From Stdlib Require Import List String ZArith NArith Bool Lia Arith.
From Stdlib.Strings Require Import Byte.
Import ListNotations.
Local Open Scope string_scope.

(* ================================================================== *)
(** ** Bytes and text *)

Definition bytes := list byte.
Definition str := string.

(** [bytes.strip()] with no argument removes ASCII whitespace:
    space, [\t], [\n], [\r], [\x0b], [\x0c]. *)
Definition is_space (b : byte) : bool :=
  match b with
  | x20 | x09 | x0a | x0d | x0b | x0c => true
  | _ => false
  end.

Fixpoint lstrip (bs : bytes) : bytes :=
  match bs with
  | [] => []
  | b :: r => if is_space b then lstrip r else bs
  end.

Definition rstrip (bs : bytes) : bytes := rev (lstrip (rev bs)).

Definition strip (bs : bytes) : bytes := rstrip (lstrip bs).

Definition in_range (lo hi : N) (b : byte) : bool :=
  (lo <=? Byte.to_N b)%N && (Byte.to_N b <=? hi)%N.

(** The text consisting of one line feed. *)
Definition newline : str := String (Ascii.ascii_of_nat 10) EmptyString.

Definition continuation (b : byte) : bool := in_range 128 191 b.

(** Well-formed UTF-8 byte sequences (the strict codec: no overlong
    forms, no surrogates, nothing above U+10FFFF). *)
Fixpoint utf8_valid (bs : bytes) : bool :=
  match bs with
  | [] => true
  | b0 :: r0 =>
    if in_range 0 127 b0 then utf8_valid r0
    else match r0 with
    | [] => false
    | b1 :: r1 =>
      if in_range 194 223 b0 then continuation b1 && utf8_valid r1
      else match r1 with
      | [] => false
      | b2 :: r2 =>
        if in_range 224 224 b0
        then in_range 160 191 b1 && continuation b2 && utf8_valid r2
        else if in_range 225 236 b0 || in_range 238 239 b0
        then continuation b1 && continuation b2 && utf8_valid r2
        else if in_range 237 237 b0
        then in_range 128 159 b1 && continuation b2 && utf8_valid r2
        else match r2 with
        | [] => false
        | b3 :: r3 =>
          if in_range 240 240 b0
          then in_range 144 191 b1 && continuation b2 && continuation b3
               && utf8_valid r3
          else if in_range 241 243 b0
          then continuation b1 && continuation b2 && continuation b3
               && utf8_valid r3
          else if in_range 244 244 b0
          then in_range 128 143 b1 && continuation b2 && continuation b3
               && utf8_valid r3
          else false
        end
      end
    end
  end.

(* ================================================================== *)
(** ** Exceptions and the exception/state monad *)

(** The [OSError] family raised by socket calls. *)
Inductive os_error :=
| FileNotFoundError
| ConnectionRefusedError
| BrokenPipeError
| ConnectionResetError
| ConnectionAbortedError
| PermissionError
| OtherOSError.

(** [ConnectionError] and its subclasses. *)
Definition is_ConnectionError (e : os_error) : bool :=
  match e with
  | ConnectionRefusedError | BrokenPipeError
  | ConnectionResetError | ConnectionAbortedError => true
  | _ => false
  end.

Inductive exn :=
| AttributeError
| UnboundLocalError
| UnicodeDecodeError
| IndexError
| TypeError
| OSErr (e : os_error)
| DaemonRunningError (msg : string)
| DaemonNotRunningError (msg : string)
| LibraryError (name : string).   (* any other Exception of a collaborator *)

Inductive result (A : Type) :=
| Ok (a : A)
| Raise (e : exn).
Arguments Ok {A} a.
Arguments Raise {A} e.

Definition M (S A : Type) : Type := S -> result A * S.

Definition ret {S A} (a : A) : M S A := fun s => (Ok a, s).

Definition raise {S A} (e : exn) : M S A := fun s => (Raise e, s).

Definition bind {S A B} (c : M S A) (k : A -> M S B) : M S B :=
  fun s => match c s with
           | (Ok a, s') => k a s'
           | (Raise e, s') => (Raise e, s')
           end.

(** Turn an outcome decided by the environment into a computation. *)
Definition lift {S A} (r : result A) : M S A := fun s => (r, s).

Definition gets {S A} (f : S -> A) : M S A := fun s => (Ok (f s), s).

Definition modify {S} (f : S -> S) : M S unit := fun s => (Ok tt, f s).

(** [try: body  except Exception as e: handler e] *)
Definition try_except {S A} (body : M S A) (handler : exn -> M S A) : M S A :=
  fun s => match body s with
           | (Ok a, s') => (Ok a, s')
           | (Raise e, s') => handler e s'
           end.

(** [try: body  except <class> as e: handler e], where [catches]
    decides membership in the class; other exceptions pass through. *)
Definition try_catch {S A} (body : M S A) (catches : exn -> bool)
                     (handler : exn -> M S A) : M S A :=
  fun s => match body s with
           | (Ok a, s') => (Ok a, s')
           | (Raise e, s') => if catches e then handler e s' else (Raise e, s')
           end.

(** [try: body  finally: fin] *)
Definition try_finally {S A} (body : M S A) (fin : M S unit) : M S A :=
  fun s => match body s with
           | (r, s') => match fin s' with
                        | (Ok _, s'') => (r, s'')
                        | (Raise e, s'') => (Raise e, s'')
                        end
           end.

Declare Scope py_scope.
Delimit Scope py_scope with py.
Notation "x <- c ;; k" := (bind c (fun x => k))
  (at level 61, c at next level, right associativity) : py_scope.
Notation "c ;; k" := (bind c (fun _ => k))
  (at level 61, right associativity) : py_scope.
Local Open Scope py_scope.

(** [bytes.decode()] and [str.encode()] with the default UTF-8 codec. *)
Definition decode (b : bytes) : result str :=
  if utf8_valid b then Ok (string_of_list_byte b) else Raise UnicodeDecodeError.

Definition encode (s : str) : bytes := list_byte_of_string s.

(** A socket call either succeeds or raises a member of [OSError]. *)
Definition os_result (err : option os_error) : result unit :=
  match err with
  | None => Ok tt
  | Some e => Raise (OSErr e)
  end.

(* ================================================================== *)
(** ** JSON-RPC objects *)

(** A JSON-RPC request id. *)
Inductive ident :=
| IdNum (n : Z)
| IdStr (s : string).

(** What [Request(data)] yields: [attr_request_id] is [None] when the
    object has no [request_id] attribute, and [Some v] when it has one
    with value [v] ([v = None] being Python's [None]). *)
Record request := {
  method_name : string;
  attr_request_id : option (option ident)
}.

Inductive Response :=
| RequestResponse (request_id : ident) (result_json : str)
| NotificationResponse
| ErrorResponse (http_status : Z) (request_id : option ident)
                (code : Z) (message : string).

(* ================================================================== *)
(** ** The connection handler *)

Module UnixSocketJSONRPCServer.

(** The server attributes a handler reads. The callback and the
    logger are optional ([request_cb=None], [logger=None]). *)
Record server := {
  _request_cb : bool;      (* self.server._request_cb is not None *)
  logger : bool            (* self.server.logger is not None *)
}.

(** What the environment does during one pass of the [while True] loop. *)
Record world := {
  poll_ready : bool;                    (* poller.poll(500) is non-empty *)
  recv_outcome : result bytes;          (* self.request.recv(1024) *)
  stop_event_set : bool;                (* STOP_EVENT.is_set() *)
  request_cb_outcome : result unit;     (* _request_cb(self.data) *)
  acquire_outcome : bool;               (* _client_lock.acquire(True, 10) *)
  dispatch_outcome : result Response;   (* dispatcher.dispatch(...) *)
  sendall_outcome : result unit         (* self.request.sendall(msg) *)
}.

Inductive event :=
| EvCallback (d : str)
| EvAcquire (timeout : Z) (ok : bool)
| EvDispatch (d : str)      (* dispatcher.dispatch is entered *)
| EvDispatched              (* ... and left, by return or by raise *)
| EvRelease
| EvDebug
| EvException (e : exn)
| EvSendall (msg : bytes).

(** The handler's local variables together with what it has done. *)
Record frame := {
  data : str;
  lock_acquired : bool;
  response : option Response;
  trace : list event
}.

Definition initial_frame : frame :=
  {| data := EmptyString; lock_acquired := false;
     response := None; trace := [] |}.

Definition set_data (d : str) (f : frame) : frame :=
  {| data := d; lock_acquired := lock_acquired f;
     response := response f; trace := trace f |}.

Definition set_lock_acquired (b : bool) (f : frame) : frame :=
  {| data := data f; lock_acquired := b;
     response := response f; trace := trace f |}.

Definition set_response (r : Response) (f : frame) : frame :=
  {| data := data f; lock_acquired := lock_acquired f;
     response := Some r; trace := trace f |}.

Definition emit (e : event) (f : frame) : frame :=
  {| data := data f; lock_acquired := lock_acquired f;
     response := response f; trace := trace f ++ [e] |}.

Inductive exit_reason :=
| PeerClosed       (* line 42: empty data *)
| StopEvent        (* line 45: STOP_EVENT is set *)
| BrokenPipe.      (* line 82: BrokenPipeError while sending *)

Inductive ctl :=
| Continue
| Break (r : exit_reason).

(** [HTTP_STATUS_CODES[408]], a table of [jsonrpcserver.status]: the
    entry is identified with its key. *)
Definition HTTP_STATUS_CODES (n : Z) : Z := n.

(** The events a frame has gained since an earlier one. *)
Definition new_events (before after : frame) : list event :=
  skipn (List.length (trace before)) (trace after).

(** The messages written to the socket, in order. *)
Fixpoint sends (tr : list event) : list bytes :=
  match tr with
  | [] => []
  | EvSendall msg :: tr' => msg :: sends tr'
  | _ :: tr' => sends tr'
  end.

(** How often the dispatcher was entered. *)
Fixpoint dispatches (tr : list event) : nat :=
  match tr with
  | [] => 0
  | EvDispatch _ :: tr' => S (dispatches tr')
  | _ :: tr' => dispatches tr'
  end.

(** How often the lock was taken, and how often it was released. *)
Fixpoint acquisitions (tr : list event) : nat :=
  match tr with
  | [] => 0
  | EvAcquire _ true :: tr' => S (acquisitions tr')
  | _ :: tr' => acquisitions tr'
  end.

Fixpoint releases (tr : list event) : nat :=
  match tr with
  | [] => 0
  | EvRelease :: tr' => S (releases tr')
  | _ :: tr' => releases tr'
  end.

(** Whether the lock is held after [tr], given whether it was before. *)
Fixpoint held_after (held : bool) (tr : list event) : bool :=
  match tr with
  | [] => held
  | EvAcquire _ true :: tr' => held_after true tr'
  | EvRelease :: tr' => held_after false tr'
  | _ :: tr' => held_after held tr'
  end.

Section Handler.

(** [jsonrpcserver.request.Request] and
    [json.dumps(response.json_debug)], both library code; the latter
    yields [None] when the value cannot be serialised. *)
Variable Request : str -> result request.
Variable dumps_json_debug : Response -> option str.

Variable srv : server.

(** [logger.debug(...)]: an attribute lookup on [None] when there is
    no logger. *)
Definition logger_debug : M frame unit :=
  if logger srv then modify (emit EvDebug) else raise AttributeError.

(** [if logger is not None: logger.exception(e)] *)
Definition log_exception (e : exn) : M frame unit :=
  if logger srv then modify (emit (EvException e)) else ret tt.

(** Lines 51-68, the body of the first [try]. *)
Definition dispatch_try (w : world) : M frame unit :=
  (if _request_cb srv
   then d <- gets data ;;
        modify (emit (EvCallback d)) ;;
        lift (request_cb_outcome w)
   else ret tt) ;;
  modify (emit (EvAcquire 10 (acquire_outcome w))) ;;
  if acquire_outcome w then
    modify (set_lock_acquired true) ;;
    logger_debug ;;
    d <- gets data ;;
    modify (emit (EvDispatch d)) ;;
    r <- (fun f => (dispatch_outcome w, emit EvDispatched f)) ;;
    modify (set_response r) ;;
    logger_debug
  else
    d <- gets data ;;
    r <- lift (Request d) ;;
    logger_debug ;;
    let request_id := match attr_request_id r with
                      | Some v => v
                      | None => None
                      end in
    modify (set_response
              (ErrorResponse (HTTP_STATUS_CODES 408) request_id
                             (-32000) "Timed out waiting for lock")).

(** Lines 49-74. *)
Definition dispatch_block (w : world) : M frame unit :=
  modify (set_lock_acquired false) ;;
  try_finally
    (try_except (dispatch_try w) log_exception)
    (la <- gets lock_acquired ;;
     if la then modify (emit EvRelease) else ret tt).

(** Lines 76-85. *)
Definition respond_block (w : world) : M frame ctl :=
  try_except
    (cur <- gets response ;;
     r <- match cur with
          | Some r => ret r
          | None => raise UnboundLocalError
          end ;;
     js <- match dumps_json_debug r with
           | Some js => ret js
           | None => raise TypeError
           end ;;
     let json_str := js ++ newline in
     let msg := encode json_str in
     logger_debug ;;
     modify (emit (EvSendall msg)) ;;
     lift (sendall_outcome w) ;;
     ret Continue)
    (fun e => match e with
              | OSErr BrokenPipeError => ret (Break BrokenPipe)
              | _ => log_exception e ;; ret Continue
              end).

(** One pass of the [while True] loop, lines 38-85. *)
Definition loop_body (w : world) : M frame ctl :=
  go <- (if poll_ready w then
           chunk <- lift (recv_outcome w) ;;
           d <- lift (decode (strip chunk)) ;;
           modify (set_data d) ;;
           if String.eqb d EmptyString then ret (Some (Break PeerClosed))
           else ret None
         else
           if stop_event_set w then ret (Some (Break StopEvent))
           else ret (Some Continue)) ;;
  match go with
  | Some c => ret c
  | None => dispatch_block w ;; respond_block w
  end.

Inductive outcome :=
| Returned (r : exit_reason)     (* the loop was left by a [break] *)
| Propagated (e : exn)           (* an exception left [handle] *)
| Polling.                       (* still in the loop *)

(** [handle], driven by the environment's behaviour pass by pass. *)
Fixpoint handle (ws : list world) (f : frame) : outcome * frame :=
  match ws with
  | [] => (Polling, f)
  | w :: ws' =>
    match loop_body w f with
    | (Ok Continue, f') => handle ws' f'
    | (Ok (Break r), f') => (Returned r, f')
    | (Raise e, f') => (Propagated e, f')
    end
  end.

End Handler.

(** The three ways out of the loop, read off the world of the pass
    in which the [break] is taken. *)
Definition close_transition (w : world) (r : exit_reason) : Prop :=
  match r with
  | PeerClosed =>
    poll_ready w = true
    /\ exists chunk, recv_outcome w = Ok chunk
                     /\ decode (strip chunk) = Ok EmptyString
  | StopEvent => poll_ready w = false /\ stop_event_set w = true
  | BrokenPipe =>
    poll_ready w = true
    /\ sendall_outcome w = Raise (OSErr BrokenPipeError)
  end.

(** A pass in which the peer sends the single byte [0xff]. *)
Definition garbled : world :=
  {| poll_ready := true; recv_outcome := Ok [xff];
     stop_event_set := false; request_cb_outcome := Ok tt;
     acquire_outcome := true;
     dispatch_outcome := Ok NotificationResponse;
     sendall_outcome := Ok tt |}.

(** *** The constructor and its liveness probe (lines 87-104) *)

Inductive init_event :=
| EvConnect      (* sock.connect(SOCKET_FILE_NAME) *)
| EvUnlink       (* SOCKET_FILE_NAME.unlink() *)
| EvBind.        (* super().__init__: bind and listen *)

(** The part of the machine the constructor reads and changes. *)
Record host := {
  socket_file_exists : bool;      (* SOCKET_FILE_NAME.exists() *)
  bound : bool;                   (* this server listens on the path *)
  init_trace : list init_event
}.

Definition note (e : init_event) (h : host) : host :=
  {| socket_file_exists := socket_file_exists h; bound := bound h;
     init_trace := init_trace h ++ [e] |}.

Definition unlink (h : host) : host :=
  {| socket_file_exists := false; bound := bound h;
     init_trace := init_trace h ++ [EvUnlink] |}.

Definition listen (h : host) : host :=
  {| socket_file_exists := true; bound := true;
     init_trace := init_trace h |}.

Definition is_ConnectionRefusedError (e : exn) : bool :=
  match e with
  | OSErr ConnectionRefusedError => true
  | _ => false
  end.

(** [socketserver.UnixStreamServer.__init__]: binding a path that is
    already present fails (address in use); otherwise the environment
    decides ([bind_error], e.g. permission denied). *)
Definition server_bind (bind_error : option os_error) : M host unit :=
  modify (note EvBind) ;;
  ex <- gets socket_file_exists ;;
  (if ex then raise (OSErr OtherOSError) else ret tt) ;;
  lift (os_result bind_error) ;;
  modify listen.

Definition __init__ (connect_error bind_error : option os_error)
  : M host unit :=
  ex <- gets socket_file_exists ;;
  (if ex then
     try_catch
       (modify (note EvConnect) ;;
        lift (os_result connect_error) ;;
        raise (DaemonRunningError "A daemon is already running."))
       is_ConnectionRefusedError
       (fun _ => modify unlink)
   else ret tt) ;;
  server_bind bind_error.

End UnixSocketJSONRPCServer.

(* ================================================================== *)
(** ** The client proxy *)

Module UnixSocketServerProxy.

Definition not_running_msg : string :=
  "walletd is not running, or the socket is not readable.".

Definition is_FileNotFoundError (e : exn) : bool :=
  match e with
  | OSErr FileNotFoundError => true
  | _ => false
  end.

Definition is_ConnectionError_exn (e : exn) : bool :=
  match e with
  | OSErr o => is_ConnectionError o
  | _ => false
  end.

(** The proxy's socket: what has been written to it, and how many
    times it has been read. *)
Record sock := {
  connected : bool;
  sent : list bytes;
  recv_calls : nat
}.

Definition fresh_sock : sock :=
  {| connected := false; sent := []; recv_calls := 0 |}.

Definition set_connected (s : sock) : sock :=
  {| connected := true; sent := sent s; recv_calls := recv_calls s |}.

Definition push (msg : bytes) (s : sock) : sock :=
  {| connected := connected s; sent := sent s ++ [msg];
     recv_calls := recv_calls s |}.

Definition count_recv (s : sock) : sock :=
  {| connected := connected s; sent := sent s;
     recv_calls := S (recv_calls s) |}.

(** Lines 110-121. *)
Definition __init__ (connect_error : option os_error) : M sock unit :=
  try_catch
    (try_catch
       (lift (os_result connect_error) ;; modify set_connected)
       is_FileNotFoundError
       (fun _ => raise (DaemonNotRunningError not_running_msg)))
    UnixSocketJSONRPCServer.is_ConnectionRefusedError
    (fun _ => raise (DaemonNotRunningError not_running_msg)).

(** Python values, as far as arguments of a remote call go. *)
#[local] Unset Elimination Schemes.
Inductive pyval :=
| PNone
| PBool (b : bool)
| PInt (n : Z)
| PStr (s : string)
| PList (l : list pyval)
| PDict (d : list (string * pyval)).
#[local] Set Elimination Schemes.

Definition kwargs_t := list (string * pyval).

(** [kwargs.get(key, default)] *)
Fixpoint get (kwargs : kwargs_t) (key : string) (default : pyval) : pyval :=
  match kwargs with
  | [] => default
  | (k, v) :: rest => if String.eqb k key then v else get rest key default
  end.

(** Truth value of a Python object in a condition. *)
Definition truthy (v : pyval) : bool :=
  match v with
  | PNone => false
  | PBool b => b
  | PInt n => negb (n =? 0)%Z
  | PStr s => negb (String.eqb s EmptyString)
  | PList l => match l with [] => false | _ => true end
  | PDict d => match d with [] => false | _ => true end
  end.

(** The call that [attr_handler] makes on the base class
    [jsonrpcclient.server.Server]. *)
Inductive base_call :=
| request (method : string) (args : list pyval) (kwargs : kwargs_t)
| notify (method : string) (args : list pyval) (kwargs : kwargs_t).

(** [dict(args=args, kwargs=kwargs)] *)
Definition params_object (args : list pyval) (kwargs : kwargs_t) : pyval :=
  PDict [("args", PList args); ("kwargs", PDict kwargs)].

(** Lines 123-132: [__getattr__ name] is [attr_handler]. *)
Definition __getattr__ (name : string) (args : list pyval)
                       (kwargs : kwargs_t) : base_call :=
  if truthy (get kwargs "response" (PBool true))
  then request name [PList [params_object args kwargs]] []
  else notify name args kwargs.

Inductive reply :=
| Reply (rv : str)          (* [send_message] returned [rv] *)
| Raised (e : exn)          (* it raised *)
| Blocked.                  (* it waits in [recv] for more bytes *)

(** The [while True] loop of lines 145-153, fed with what successive
    [recv(8192)] calls return. *)
Fixpoint read_reply (inbox : list (result bytes)) (rv : str) (s : sock)
  : reply * sock :=
  match inbox with
  | [] => (Blocked, s)
  | r :: rest =>
    let s := count_recv s in
    match r with
    | Raise e => (Raised e, s)
    | Ok chunk =>
      match decode chunk with
      | Raise e => (Raised e, s)
      | Ok text =>
        let rv := rv ++ text in
        match rev chunk with
        | [] => (Raised IndexError, s)
        | last :: _ =>
          if Byte.eqb last x0a then (Reply rv, s)
          else read_reply rest rv s
        end
      end
    end
  end.

(** Lines 134-154. [message] is a [str] (left) or [bytes] (right). *)
Definition send_message (message : str + bytes) (expect_reply : bool)
                        (send_error : option os_error)
                        (inbox : list (result bytes)) (s : sock)
  : reply * sock :=
  let message := match message with
                 | inl text => encode text
                 | inr b => b
                 end in
  match try_catch
          (modify (push (message ++ [x0a])%list) ;; lift (os_result send_error))
          is_ConnectionError_exn
          (fun _ => raise (DaemonNotRunningError not_running_msg)) s with
  | (Raise e, s') => (Raised e, s')
  | (Ok _, s') =>
    if expect_reply then read_reply inbox EmptyString s'
    else (Reply EmptyString, s')
  end.

End UnixSocketServerProxy.

(* ================================================================== *)
(** ** Several handlers on one lock *)

Module Interleaving.
Import UnixSocketJSONRPCServer.

(** An event of handler thread [i]. *)
Definition gevent : Type := nat * event.

(** What thread [i] did, in order. *)
Definition proj (i : nat) (g : list gevent) : list event :=
  map snd (filter (fun p => Nat.eqb (fst p) i) g).

(** [threading.Lock]: [acquire] succeeds only on a free lock and makes
    the caller its holder; an [acquire] that timed out changes
    nothing; [release] frees a held lock and is an error on a free
    one. Events that do not touch the lock leave it alone. *)
Definition lock_step (holder : option nat) (x : gevent)
  : option (option nat) :=
  match snd x with
  | EvAcquire _ true =>
    match holder with
    | None => Some (Some (fst x))
    | Some _ => None
    end
  | EvRelease =>
    match holder with
    | Some _ => Some None
    | None => None
    end
  | _ => Some holder
  end.

(** The holder after the interleaving [g], if [g] respects the lock. *)
Fixpoint lock_run (holder : option nat) (g : list gevent)
  : option (option nat) :=
  match g with
  | [] => Some holder
  | x :: g' =>
    match lock_step holder x with
    | Some h => lock_run h g'
    | None => None
    end
  end.

(** A thread's view of itself: does it hold the lock, is it inside
    the dispatcher. *)
Record status := { holding : bool; inside : bool }.

Definition idle : status := {| holding := false; inside := false |}.

(** One event against the discipline "acquire when not holding,
    dispatch only while holding, release after the dispatcher is left". *)
Definition status_step (st : status) (e : event) : option status :=
  match e with
  | EvAcquire _ ok =>
    if holding st then None
    else Some {| holding := ok; inside := inside st |}
  | EvDispatch _ =>
    if holding st && negb (inside st)
    then Some {| holding := true; inside := true |}
    else None
  | EvDispatched =>
    if inside st then Some {| holding := holding st; inside := false |}
    else None
  | EvRelease =>
    if holding st && negb (inside st) then Some idle else None
  | _ => Some st
  end.

Fixpoint status_run (st : status) (tr : list event) : option status :=
  match tr with
  | [] => Some st
  | e :: tr' =>
    match status_step st e with
    | Some st' => status_run st' tr'
    | None => None
    end
  end.

(** Whether a thread is inside [dispatcher.dispatch] after [tr],
    given whether it was before: it has entered and not yet left. *)
Fixpoint in_dispatcher (b : bool) (tr : list event) : bool :=
  match tr with
  | [] => b
  | EvDispatch _ :: tr' => in_dispatcher true tr'
  | EvDispatched :: tr' => in_dispatcher false tr'
  | _ :: tr' => in_dispatcher b tr'
  end.

(** Thread [i] is executing a dispatched operation after [g]. *)
Definition executing (i : nat) (g : list gevent) : bool :=
  in_dispatcher false (proj i g).

(** Every thread of the interleaving [g] is a handler of the same
    server: what thread [i] has done so far is the beginning of a run
    of [handle] on a fresh connection. *)
Definition handler_threads (Request : str -> result request)
                           (dumps_json_debug : Response -> option str)
                           (srv : server) (g : list gevent) : Prop :=
  forall i, exists ws rest,
    trace (snd (handle Request dumps_json_debug srv ws initial_frame))
    = (proj i g ++ rest)%list.

End Interleaving.

(* ================================================================== *)
(** ** Concrete servers, messages and passes *)

Module Samples.
Import UnixSocketJSONRPCServer.

Definition walletd : server := {| _request_cb := false; logger := true |}.

(** A server built with the default [logger=None]. *)
Definition silent : server := {| _request_cb := false; logger := false |}.

Definition balance_request : request :=
  {| method_name := "confirmed_balance";
     attr_request_id := Some (Some (IdNum 7)) |}.

(** A [Request] that accepts every text, and one that rejects every
    text. *)
Definition Request_accepting (_ : str) : result request :=
  Ok balance_request.

Definition Request_rejecting (_ : str) : result request :=
  Raise (LibraryError "InvalidRequest").

(** A serialiser good enough to tell responses apart. *)
Definition dumps (r : Response) : option str :=
  match r with
  | RequestResponse (IdNum n) js =>
    Some (if (n =? 7)%Z then "id 7: " ++ js else "id: " ++ js)
  | RequestResponse (IdStr s) js => Some (s ++ ": " ++ js)
  | NotificationResponse => None
  | ErrorResponse _ _ _ m => Some m
  end.

(** The two bytes of an empty JSON object. *)
Definition braces : bytes := [x7b; x7d].

Definition balance_response : Response := RequestResponse (IdNum 7) "42".

(** A pass in which a message arrives and everything goes well. *)
Definition served : world :=
  {| poll_ready := true; recv_outcome := Ok braces;
     stop_event_set := false; request_cb_outcome := Ok tt;
     acquire_outcome := true;
     dispatch_outcome := Ok balance_response;
     sendall_outcome := Ok tt |}.

(** ... in which the lock stays taken for the whole timeout, *)
Definition busy : world :=
  {| poll_ready := true; recv_outcome := Ok braces;
     stop_event_set := false; request_cb_outcome := Ok tt;
     acquire_outcome := false;
     dispatch_outcome := Ok balance_response;
     sendall_outcome := Ok tt |}.

(** ... in which the dispatcher raises, *)
Definition crashing : world :=
  {| poll_ready := true; recv_outcome := Ok braces;
     stop_event_set := false; request_cb_outcome := Ok tt;
     acquire_outcome := true;
     dispatch_outcome := Raise (LibraryError "dispatch");
     sendall_outcome := Ok tt |}.

(** ... in which the peer is gone when the response is written, *)
Definition hung_up : world :=
  {| poll_ready := true; recv_outcome := Ok braces;
     stop_event_set := false; request_cb_outcome := Ok tt;
     acquire_outcome := true;
     dispatch_outcome := Ok balance_response;
     sendall_outcome := Raise (OSErr BrokenPipeError) |}.

(** ... and one in which [chunk] arrives. *)
Definition receiving (chunk : bytes) : world :=
  {| poll_ready := true; recv_outcome := Ok chunk;
     stop_event_set := false; request_cb_outcome := Ok tt;
     acquire_outcome := true;
     dispatch_outcome := Ok balance_response;
     sendall_outcome := Ok tt |}.

(** The frame of a handler that has answered one request. *)
Definition answered : frame :=
  {| data := "{}"; lock_acquired := true;
     response := Some balance_response; trace := [] |}.

End Samples.

(* ================================================================== *)
(** ** Frames on the wire *)

Module Wire.
Import UnixSocketJSONRPCServer.

(** The last byte of [msg] is a line feed. *)
Definition ends_with_lf (msg : bytes) : bool :=
  match rev msg with
  | b :: _ => Byte.eqb b x0a
  | [] => false
  end.

(** Bytes below 128 only, as [json.dumps] writes them. *)
Definition ascii_only (bs : bytes) : bool := forallb (in_range 0 127) bs.

(** No line feed among the bytes. *)
Definition lf_free (bs : bytes) : bool :=
  forallb (fun b => negb (Byte.eqb b x0a)) bs.

(** A chunk of a reply that keeps the client reading: not empty,
    valid UTF-8 on its own, and not ending in a line feed. *)
Definition open_chunk (c : bytes) : bool :=
  match c with
  | [] => false
  | _ => utf8_valid c && negb (ends_with_lf c)
  end.

(** A pass in which nothing arrives and the stop flag is clear. *)
Definition idle_pass (w : world) : bool :=
  negb (poll_ready w) && negb (stop_event_set w).

(** Passes for a connection without traffic, and the pass in which
    the handler sees the stop flag. *)
Definition quiet : world :=
  {| poll_ready := false; recv_outcome := Ok [];
     stop_event_set := false; request_cb_outcome := Ok tt;
     acquire_outcome := true;
     dispatch_outcome := Ok NotificationResponse;
     sendall_outcome := Ok tt |}.

Definition stopping : world :=
  {| poll_ready := false; recv_outcome := Ok [];
     stop_event_set := true; request_cb_outcome := Ok tt;
     acquire_outcome := true;
     dispatch_outcome := Ok NotificationResponse;
     sendall_outcome := Ok tt |}.

(** A server with a request callback, and a pass in which the
    callback raises. *)
Definition guarded : server := {| _request_cb := true; logger := true |}.

Definition vetoing : world :=
  {| poll_ready := true; recv_outcome := Ok [x7b; x7d];
     stop_event_set := false;
     request_cb_outcome := Raise (LibraryError "callback");
     acquire_outcome := true;
     dispatch_outcome := Ok NotificationResponse;
     sendall_outcome := Ok tt |}.

(** Whether the constructor's trace has an event. *)
Definition happened (e : init_event) (tr : list init_event) : bool :=
  existsb (fun x => match x, e with
                    | EvConnect, EvConnect
                    | EvUnlink, EvUnlink
                    | EvBind, EvBind => true
                    | _, _ => false
                    end) tr.

End Wire.

(* ================================================================== *)
(** ** Kinds of passes on a connection *)

Module Connection.
Import UnixSocketJSONRPCServer.





End Connection.

(* ================================================================== *)
(** ** The wallet command line ([two1/lib/wallet/cli.py]) *)

From Stdlib Require DecimalString Sorted Permutation.

Module WalletCLI.

(** An exception as the command line code looks at it: its [message]
    attribute, if it has one, and its [str]. *)
Record exception := {
  message : option string;
  text : string
}.

(** What is handed to [d.install]. *)
Inductive dpo :=
| dpo_twentyone                              (* dict(provider='twentyone') *)
| dpo_chain (api_key_id api_key_secret : string).

Inductive output :=
| Echo (msg : string)                 (* click.echo *)
| LogError (msg : string)             (* logger.error *)
| LogDebug (msg : string)             (* logger.debug *)
| LogTraceback                        (* logger.debug of the traceback *)
| Getpass (prompt : string)           (* getpass.getpass *)
| Prompt (prompt : string)            (* click.prompt and click.confirm *)
| Started | Installed                 (* d.started(), d.installed() *)
| Install (o : dpo) | Start | Stop | Uninstall
| Remove                              (* os.remove(wallet_path) *)
| Import (mnemonic passphrase : string)
| ToFile.                             (* wallet.to_file(wallet_path) *)

(** Ways in which a command stops short. *)
Inductive halt :=
| Exit (code : Z)                     (* ctx.exit(code=...) *)
| UsageError (msg : string)           (* ctx.fail(msg) *)
| UnboundLocal (name : string).       (* a local read before assignment *)

Definition Cmd (A : Type) : Type := list output -> (A + halt) * list output.

Definition done {A} (a : A) : Cmd A := fun out => (inl a, out).

Definition halted {A} (h : halt) : Cmd A := fun out => (inr h, out).

Definition andthen {A B} (c : Cmd A) (k : A -> Cmd B) : Cmd B :=
  fun out => match c out with
             | (inl a, out') => k a out'
             | (inr h, out') => (inr h, out')
             end.

Definition say (o : output) : Cmd unit :=
  fun out => (inl tt, (out ++ [o])%list).

(** Reading a local variable that may not have been assigned. *)
Definition local {A} (name : string) (v : option A) : Cmd A :=
  match v with
  | Some a => done a
  | None => halted (UnboundLocal name)
  end.

Declare Scope cli_scope.
Delimit Scope cli_scope with cli.
Notation "x <~ c ;; k" := (andthen c (fun x => k))
  (at level 61, c at next level, right associativity) : cli_scope.
Notation "c ;;; k" := (andthen c (fun _ => k))
  (at level 61, right associativity) : cli_scope.
Local Open Scope cli_scope.

(** Truth value of a [str] in a condition. *)
Definition nonempty (s : string) : bool := negb (String.eqb s EmptyString).

(** Lines 32-65, [handle_exceptions(f, custom_msg)]: the wrapper,
    given how the call of [f] ended. *)
Definition handle_exceptions {A} (custom_msg : string) (hasHandlers : bool)
                             (f : A + exception) : Cmd A :=
  match f with
  | inl rv => done rv
  | inr e =>
    let msg := match message e with
               | Some m =>
                 if String.eqb m "Timed out waiting for lock"
                 then Some (m ++ ". Please try again.")
                 else None
               | None =>
                 if nonempty custom_msg
                 then Some (custom_msg ++ ": " ++ text e)
                 else Some (text e)
               end in
    let tb := match message e with
              | Some _ => None
              | None => Some tt
              end in
    m <~ local "msg" msg ;;
    say (LogError m) ;;;
    local "tb" tb ;;;
    say LogTraceback ;;;
    (if hasHandlers then done tt else say (Echo m)) ;;;
    halted (Exit 1)
  end.

(** Lines 374-377 of [create]: the loop
    [while passphrase != conf and i < 3]. [rounds] bounds the passes
    that are left; started with 3 it is never the reason to stop.
    [answers i] is what the user types in pass [i]. *)
Fixpoint ask_passphrase (rounds : nat) (answers : nat -> string * string)
                        (passphrase conf : string) (i : nat)
  : Cmd (string * string * nat) :=
  if negb (String.eqb passphrase conf) && Nat.ltb i 3
  then match rounds with
       | 0 => done (passphrase, conf, i)
       | S rounds' =>
         say (Getpass "Enter desired passphrase: ") ;;;
         say (Getpass "Confirm passphrase: ") ;;;
         ask_passphrase rounds' answers
                        (fst (answers i)) (snd (answers i)) (i + 1)%nat
       end
  else done (passphrase, conf, i).

(** Lines 369-380 of [create]: the passphrase the wallet is created
    with. *)
Definition create_passphrase (wants_passphrase : bool)
                             (answers : nat -> string * string)
  : Cmd string :=
  if wants_passphrase then
    r <~ ask_passphrase 3 answers EmptyString "a" 0 ;;
    let '(passphrase, conf, _) := r in
    if negb (String.eqb passphrase conf)
    then halted (UsageError "Passphrases don't match. Quitting.")
    else done passphrase
  else done EmptyString.

(** The daemonizer of the platform, as far as the commands use it:
    calls that can raise [DaemonizerError] yield its text on the
    left. *)
Record daemonizer := {
  started : bool;
  installed : bool;
  install : option string;
  start : string + bool;
  stop : string + bool;
  uninstall : string + bool
}.

Inductive provider :=
| TwentyOneProvider
| ChainProvider (chain_api_key_id chain_api_key_secret : string)
| other_provider.

(** Lines 243-293, [startdaemon]. [virtual_env] is
    [os.environ.get("VIRTUAL_ENV")], [wallet_file] the result of
    [check_wallet_file], [get] that of [get_daemonizer()] with the
    text of the [OSError] on the left. *)
Definition startdaemon (virtual_env : option string) (wallet_file : bool)
                       (get : string + daemonizer) (data_provider : provider)
  : Cmd unit :=
  if match virtual_env with Some v => nonempty v | None => false end
  then say (Echo "Not starting daemon while inside a virtualenv. It can be manually started by doing 'walletd' and backgrounding the process.")
  else
    (if wallet_file then done tt
     else say (Echo "ERROR: Wallet does not exist! Not starting daemon.") ;;;
          halted (Exit 7)) ;;;
    match get with
    | inl e => say (LogDebug e) ;;; say (Echo ("Error: " ++ e))
    | inr d =>
      say Started ;;;
      if started d then say (Echo "walletd already running.")
      else
        say Installed ;;;
        proceed <~ (if installed d then done true
                    else
                      let dpo := match data_provider with
                                 | TwentyOneProvider => Some dpo_twentyone
                                 | ChainProvider k s => Some (dpo_chain k s)
                                 | other_provider => None
                                 end in
                      o <~ local "dpo" dpo ;;
                      say (Install o) ;;;
                      match install d with
                      | Some e =>
                        say (LogDebug e) ;;; say (Echo ("Error: " ++ e)) ;;;
                        done false
                      | None => done true
                      end) ;;
        if proceed then
          say Start ;;;
          let msg := match start d with
                     | inr true => "walletd successfully started."
                     | inr false => "walletd not started."
                     | inl e => "Error: " ++ e
                     end in
          say (LogDebug msg) ;;; say (Echo msg)
        else done tt
    end.

(** Lines 328-350, [uninstalldaemon]. *)
Definition uninstalldaemon (get : string + daemonizer) : Cmd unit :=
  match get with
  | inl e => say (LogDebug e) ;;; say (Echo ("Error: " ++ e))
  | inr d =>
    msg <~ (say Stop ;;;
            match stop d with
            | inl e => done (Some ("Error: " ++ e))
            | inr _ =>
              say Installed ;;;
              if installed d then
                say Uninstall ;;;
                match uninstall d with
                | inl e => done (Some ("Error: " ++ e))
                | inr true =>
                  done (Some "walletd successfully uninstalled from init system.")
                | inr false => done None
                end
              else done (Some "Unable to uninstall walletd!")
            end) ;;
    m <~ local "msg" msg ;;
    say (LogDebug m) ;;; say (Echo m)
  end.

(** What [restore] meets: the daemonizer, the file system, the user
    and the wallet library. *)
Record restore_world := {
  get_daemonizer : string + daemonizer;
  wallet_exists : bool;            (* os.path.exists(wallet_path) *)
  confirm_delete : bool;           (* answer to the first question *)
  mnemonic : string;               (* what the user types *)
  mnemonic_valid : bool;           (* Mnemonic.check(mnemonic) *)
  had_passphrase : bool;           (* answer to the second question *)
  typed_passphrase : string;       (* get_passphrase() *)
  restored : bool                  (* check_wallet_file afterwards *)
}.

(** Lines 415-466, [restore]. *)
Definition restore (w : restore_world) : Cmd unit :=
  match get_daemonizer w with
  | inl _ => done tt
  | inr d =>
    say Stop ;;;
    match stop d with
    | inl e =>
      say (Echo ("ERROR: Couldn't stop daemon: " ++ e)) ;;; halted (Exit 4)
    | inr _ => done tt
    end
  end ;;;
  (if wallet_exists w then
     say (Prompt "Wallet file already exists and may have a balance. Do you want to delete it?") ;;;
     if confirm_delete w then say Remove
     else say (Echo "Not continuing.") ;;; halted (Exit 4)
   else done tt) ;;;
  say (Prompt "Please enter the wallet's 12 word mnemonic") ;;;
  (if mnemonic_valid w then done tt
   else say (Echo "ERROR: Invalid mnemonic.") ;;; halted (Exit 5)) ;;;
  say (Prompt "Did the wallet have a passphrase?") ;;;
  passphrase <~ (if had_passphrase w
                 then say (Getpass "Passphrase to unlock wallet: ") ;;;
                      done (typed_passphrase w)
                 else done EmptyString) ;;
  say (Echo (newline ++ "Restoring...")) ;;;
  say (Import (mnemonic w) passphrase) ;;;
  say ToFile ;;;
  if restored w then say (Echo "Wallet successfully restored.")
  else say (Echo "Wallet not restored.") ;;; halted (Exit 6).

(** [sorted(items, key=lambda x: x[1])]: the stable sort on the
    second component, by insertion from the right. *)
Fixpoint insert_by_number (x : string * Z) (l : list (string * Z))
  : list (string * Z) :=
  match l with
  | [] => [x]
  | y :: l' =>
    if (snd x <=? snd y)%Z then x :: y :: l'
    else y :: insert_by_number x l'
  end.

Definition sorted_by_number (items : list (string * Z))
  : list (string * Z) :=
  fold_right insert_by_number [] items.

(** ["%d" % n] *)
Definition decimal (n : Z) : string :=
  DecimalString.NilZero.string_of_int (Z.to_int n).

(** Lines 659-664, [list_accounts], on the items of
    [w.account_map]. *)
Definition list_accounts (account_map : list (string * Z)) : Cmd unit :=
  fold_left
    (fun acc item =>
       acc ;;; say (Echo ("Account " ++ decimal (snd item) ++ ": "
                          ++ fst item)))
    (sorted_by_number account_map) (done tt).

(** The prompts of [n] rounds of asking for a passphrase. *)
Fixpoint asked (n : nat) : list output :=
  match n with
  | 0 => []
  | S n' => Getpass "Enter desired passphrase: "
            :: Getpass "Confirm passphrase: " :: asked n'
  end.

(** The line [list_accounts] prints for an item. *)
Definition account_line (item : string * Z) : output :=
  Echo ("Account " ++ decimal (snd item) ++ ": " ++ fst item).

(** The lines a command has echoed. *)
Fixpoint echoed (out : list output) : list string :=
  match out with
  | [] => []
  | Echo m :: out' => m :: echoed out'
  | _ :: out' => echoed out'
  end.

(** Whether an output occurs. *)
Definition occurs (p : output -> bool) (out : list output) : bool :=
  existsb p out.

Definition is_remove (o : output) : bool :=
  match o with Remove => true | _ => false end.

Definition is_import (o : output) : bool :=
  match o with Import _ _ => true | _ => false end.

Definition is_to_file (o : output) : bool :=
  match o with ToFile => true | _ => false end.

Definition is_install (o : output) : bool :=
  match o with Install _ => true | _ => false end.

Definition is_start (o : output) : bool :=
  match o with Start => true | _ => false end.

Definition is_getpass (o : output) : bool :=
  match o with Getpass _ => true | _ => false end.

Definition touches_daemonizer (o : output) : bool :=
  match o with
  | Started | Installed | Install _ | Start | Stop | Uninstall => true
  | _ => false
  end.

End WalletCLI.

(* ================================================================== *)
(** * Properties *)

(** ** Stripping *)

Lemma lstrip_spaces (bs : bytes) :
  forallb is_space bs = true -> lstrip bs = [].
Proof.
  induction bs as [|b r IH]; simpl; [reflexivity|].
  intros H. apply andb_prop in H as [Hb Hr].
  rewrite Hb. exact (IH Hr).
Qed.

Lemma strip_spaces (bs : bytes) :
  forallb is_space bs = true -> strip bs = [].
Proof.
  intros H. unfold strip. rewrite (lstrip_spaces bs H). reflexivity.
Qed.

(** ** One pass of the handler loop *)

Module HandlerFacts.
Import UnixSocketJSONRPCServer Interleaving.

Ltac unfold_monad :=
  unfold bind, ret, raise, lift, gets, modify,
         try_except, try_catch, try_finally in *.

Ltac step_handler :=
  unfold loop_body, dispatch_block, dispatch_try, respond_block,
         logger_debug, log_exception in *;
  unfold_monad; simpl in *.

Ltac break_match :=
  match goal with
  | |- context [match ?x with _ => _ end] => is_var x; destruct x; simpl
  | |- context [match ?g ?x with _ => _ end] =>
    is_var g; destruct (g x); simpl
  end.

Ltac trace_shape :=
  simpl; rewrite <- ?app_assoc; simpl;
  first [ reflexivity | symmetry; apply app_nil_r ].

Lemma new_events_app (f f' : frame) (tr : list event) :
  trace f' = (trace f ++ tr)%list -> new_events f f' = tr.
Proof.
  intros H. unfold new_events. rewrite H.
  rewrite skipn_app, skipn_all, Nat.sub_diag. reflexivity.
Qed.

Lemma status_run_app (st : status) (a b : list event) :
  status_run st (a ++ b) =
  match status_run st a with
  | Some st' => status_run st' b
  | None => None
  end.
Proof.
  revert st. induction a as [|e a IH]; intros st; simpl; [reflexivity|].
  destruct (status_step st e); [apply IH | reflexivity].
Qed.

Lemma sends_app (a b : list event) :
  sends (a ++ b) = (sends a ++ sends b)%list.
Proof.
  induction a as [|e a IH]; simpl; [reflexivity|].
  destruct e; simpl; rewrite ?IH; reflexivity.
Qed.

Lemma releases_app (a b : list event) :
  releases (a ++ b) = releases a + releases b.
Proof.
  induction a as [|e a IH]; simpl; [reflexivity|].
  destruct e; simpl; rewrite ?IH; reflexivity.
Qed.

Lemma acquisitions_app (a b : list event) :
  acquisitions (a ++ b) = acquisitions a + acquisitions b.
Proof.
  induction a as [|e a IH]; simpl; [reflexivity|].
  destruct e as [| ? []| | | | | |]; simpl; rewrite ?IH; reflexivity.
Qed.

Lemma dispatches_app (a b : list event) :
  dispatches (a ++ b) = dispatches a + dispatches b.
Proof.
  induction a as [|e a IH]; simpl; [reflexivity|].
  destruct e; simpl; rewrite ?IH; reflexivity.
Qed.

Lemma held_after_app (h : bool) (a b : list event) :
  held_after h (a ++ b) = held_after (held_after h a) b.
Proof.
  revert h. induction a as [|e a IH]; intros h; simpl; [reflexivity|].
  destruct e as [| ? []| | | | | |]; simpl; apply IH.
Qed.

Section Pass.

Variable Request : str -> result request.
Variable dumps_json_debug : Response -> option str.
Variable srv : server.

(** The dispatch block swallows every exception, keeps [data], and
    what it adds to the trace obeys the lock discipline, ending
    with the lock not held. *)
Lemma dispatch_block_spec (w : world) (f : frame) :
  exists tr f',
    dispatch_block Request srv w f = (Ok tt, f')
    /\ trace f' = (trace f ++ tr)%list
    /\ data f' = data f
    /\ status_run idle tr = Some idle
    /\ releases tr = acquisitions tr
    /\ acquisitions tr <= 1
    /\ held_after false tr = false
    /\ sends tr = [].
Proof.
  destruct f as [d la r tr0], srv as [cb lg], w as [p rc st co ao dp so].
  step_handler.
  destruct cb, lg, co as [[]|ec], ao, dp as [rr|ed];
    simpl; try destruct (Request d) as [rq|er]; simpl;
    (eexists; eexists; split; [reflexivity|];
     split; [trace_shape|]; repeat split; simpl; auto).
Qed.

(** The respond block swallows every exception too, never touches
    the lock, and leaves the variables alone. *)
Lemma respond_block_spec (w : world) (f : frame) :
  exists c tr f',
    respond_block dumps_json_debug srv w f = (Ok c, f')
    /\ trace f' = (trace f ++ tr)%list
    /\ data f' = data f
    /\ response f' = response f
    /\ (forall st, status_run st tr = Some st)
    /\ releases tr = 0 /\ acquisitions tr = 0 /\ dispatches tr = 0
    /\ (forall h, held_after h tr = h).
Proof.
  destruct f as [d la r tr0], srv as [cb lg], w as [p rc st co ao dp so].
  step_handler.
  repeat break_match;
    (do 3 eexists; split; [reflexivity|];
     split; [trace_shape|]; repeat split; reflexivity).
Qed.

(** Whatever the environment does, one pass of the loop adds a
    stretch of events that obeys the lock discipline and gives the
    lock back if it took it. *)
Lemma loop_body_spec (w : world) (f : frame) :
  exists res tr f',
    loop_body Request dumps_json_debug srv w f = (res, f')
    /\ trace f' = (trace f ++ tr)%list
    /\ status_run idle tr = Some idle
    /\ releases tr = acquisitions tr
    /\ acquisitions tr <= 1
    /\ held_after false tr = false.
Proof.
  unfold loop_body. unfold bind at 1.
  destruct (poll_ready w).
  - unfold_monad.
    destruct (recv_outcome w) as [chunk|e];
      [|exists (Raise e), [], f; rewrite app_nil_r; simpl; repeat split; auto].
    destruct (decode (strip chunk)) as [d|e];
      [|exists (Raise e), [], f; rewrite app_nil_r; simpl; repeat split; auto].
    destruct (String.eqb d EmptyString).
    + exists (Ok (Break PeerClosed)), [], (set_data d f).
      simpl. rewrite app_nil_r. repeat split; auto.
    + destruct (dispatch_block_spec w (set_data d f))
        as (tr1 & f1 & E1 & T1 & _ & S1 & R1 & A1 & H1 & _).
      destruct (respond_block_spec w f1)
        as (c & tr2 & f2 & E2 & T2 & _ & _ & S2 & R2 & A2 & _ & H2).
      rewrite E1, E2.
      exists (Ok c), (tr1 ++ tr2)%list, f2.
      split; [reflexivity|].
      split; [rewrite T2, T1, app_assoc; reflexivity|].
      rewrite status_run_app, S1, S2, releases_app, acquisitions_app,
              held_after_app, H1, H2, R1, R2, A2.
      repeat split; lia.
  - unfold_monad.
    destruct (stop_event_set w);
      [exists (Ok (Break StopEvent)), [], f
      |exists (Ok Continue), [], f];
      rewrite app_nil_r; simpl; repeat split; auto.
Qed.

(** C7. In every pass of the handler loop the lock is released
    exactly when it was acquired in that pass (at most once), the
    release comes after the dispatcher has been left, by return or by
    exception, and the pass ends with the lock not held. *)
Theorem lock_released_iff_acquired (w : world) (f : frame) :
  let f' := snd (loop_body Request dumps_json_debug srv w f) in
  let tr := new_events f f' in
  trace f' = (trace f ++ tr)%list
  /\ releases tr = acquisitions tr
  /\ acquisitions tr <= 1
  /\ held_after false tr = false
  /\ status_run idle tr = Some idle.
Proof.
  destruct (loop_body_spec w f) as (res & tr & f' & E & T & S & R & A & H).
  rewrite E. simpl. rewrite (new_events_app f f' tr T).
  repeat split; assumption.
Qed.

(** C10. A chunk made of whitespace bytes only is handled exactly as
    an empty read: the loop is left through the peer-closed [break],
    with nothing called, nothing locked and nothing sent. *)
Theorem whitespace_chunk_is_peer_close
    (w w0 : world) (ws : list world) (f : frame) (chunk : bytes) :
  forallb is_space chunk = true ->
  poll_ready w = true -> recv_outcome w = Ok chunk ->
  poll_ready w0 = true -> recv_outcome w0 = Ok [] ->
  handle Request dumps_json_debug srv (w :: ws) f
  = (Returned PeerClosed, set_data EmptyString f)
  /\ handle Request dumps_json_debug srv (w :: ws) f
     = handle Request dumps_json_debug srv (w0 :: ws) f
  /\ new_events f (set_data EmptyString f) = [].
Proof.
  intros Hs Hp Hr Hp0 Hr0.
  assert (E : forall v c, poll_ready v = true -> recv_outcome v = Ok c ->
                          strip c = [] ->
            handle Request dumps_json_debug srv (v :: ws) f
            = (Returned PeerClosed, set_data EmptyString f)).
  { intros v c Hv Hc Hc'. simpl. unfold loop_body. unfold_monad.
    rewrite Hv, Hc, Hc'. reflexivity. }
  split; [|split].
  - exact (E w chunk Hp Hr (strip_spaces chunk Hs)).
  - rewrite (E w chunk Hp Hr (strip_spaces chunk Hs)).
    rewrite (E w0 [] Hp0 Hr0 eq_refl). reflexivity.
  - apply new_events_app. simpl. symmetry. apply app_nil_r.
Qed.

(** A pass that reads a non-empty message is the dispatch block
    followed by the respond block. *)
Lemma loop_body_serve (w : world) (f f1 : frame) (chunk : bytes) (d : str) :
  poll_ready w = true -> recv_outcome w = Ok chunk ->
  decode (strip chunk) = Ok d -> String.eqb d EmptyString = false ->
  dispatch_block Request srv w (set_data d f) = (Ok tt, f1) ->
  loop_body Request dumps_json_debug srv w f
  = respond_block dumps_json_debug srv w f1.
Proof.
  intros Hp Hr Hd He E1.
  unfold loop_body, bind, lift, modify, ret.
  rewrite Hp, Hr, Hd, He, E1. reflexivity.
Qed.

(** What the respond block does once it gets as far as writing. *)
Lemma respond_block_write (w : world) (f : frame) (r : Response) (js : str) :
  response f = Some r -> dumps_json_debug r = Some js ->
  logger srv = true ->
  let f2 := emit (EvSendall (encode (js ++ newline))) (emit EvDebug f) in
  respond_block dumps_json_debug srv w f =
  match sendall_outcome w with
  | Ok _ => (Ok Continue, f2)
  | Raise (OSErr BrokenPipeError) => (Ok (Break BrokenPipe), f2)
  | Raise e => (Ok Continue, emit (EvException e) f2)
  end.
Proof.
  intros Hr Hd Hl. step_handler. rewrite Hr, Hd, Hl. simpl.
  destruct (sendall_outcome w) as [[]|[| | | | |[]| | |]]; reflexivity.
Qed.

(** The respond block leaves the loop only on a broken pipe. *)
Lemma respond_block_break (w : world) (f f' : frame) (r : exit_reason) :
  respond_block dumps_json_debug srv w f = (Ok (Break r), f') ->
  r = BrokenPipe /\ sendall_outcome w = Raise (OSErr BrokenPipeError).
Proof.
  step_handler.
  repeat (match goal with
          | |- context [match response f with _ => _ end] =>
            destruct (response f)
          | |- context [match dumps_json_debug ?x with _ => _ end] =>
            destruct (dumps_json_debug x)
          | |- context [if logger srv then _ else _] => destruct (logger srv)
          | |- context [match sendall_outcome w with _ => _ end] =>
            destruct (sendall_outcome w)
          | |- context [match ?x with _ => _ end] => is_var x; destruct x
          end; simpl);
    intros H; inversion H; auto.
Qed.

Lemma loop_body_break (w : world) (f f' : frame) (r : exit_reason) :
  loop_body Request dumps_json_debug srv w f = (Ok (Break r), f') ->
  close_transition w r.
Proof.
  unfold loop_body. unfold bind at 1.
  destruct (poll_ready w) eqn:Hp.
  - unfold_monad.
    destruct (recv_outcome w) as [chunk|e] eqn:Hr; [|discriminate].
    destruct (decode (strip chunk)) as [d|e] eqn:Hd; [|discriminate].
    destruct (String.eqb d EmptyString) eqn:He.
    + intros H. inversion H; subst. simpl. split; [exact Hp|].
      exists chunk. apply String.eqb_eq in He. subst d.
      split; assumption.
    + destruct (dispatch_block_spec w (set_data d f))
        as (tr1 & f1 & E1 & _).
      rewrite E1. intros H.
      destruct (respond_block_break w f1 f' r H) as [-> Hs].
      simpl. auto.
  - unfold_monad. destruct (stop_event_set w) eqn:Hs.
    + intros H. inversion H; subst. simpl. auto.
    + discriminate.
Qed.

(** [handle] returns only through one of the three [break]s. *)
Lemma handle_returns_by_break (ws : list world) (f f' : frame)
                              (r : exit_reason) :
  handle Request dumps_json_debug srv ws f = (Returned r, f') ->
  exists w, In w ws /\ close_transition w r.
Proof.
  revert f. induction ws as [|w ws IH]; intros f; simpl; [discriminate|].
  destruct (loop_body Request dumps_json_debug srv w f)
    as [[[|r0]|e] f1] eqn:E.
  - intros H. destruct (IH f1 H) as (w' & Hin & Hc).
    exists w'. auto.
  - intros H. inversion H; subst.
    exists w. split; [auto|]. exact (loop_body_break w f f' r E).
  - discriminate.
Qed.

(** Once a response is being written: a [BrokenPipeError] makes
    [handle] return (the message was handed to [sendall] once and is
    not sent again); any other error of the write is logged and the
    loop goes on with the next pass, as it does after a write that
    succeeded. And whenever [handle] returns, as opposed to being
    left by an exception, it does so through one of the three close
    transitions. *)
Theorem write_failure_transitions
    (w : world) (ws : list world) (f f1 : frame)
    (chunk : bytes) (d : str) (r : Response) (js : str) :
  poll_ready w = true -> recv_outcome w = Ok chunk ->
  decode (strip chunk) = Ok d -> String.eqb d EmptyString = false ->
  dispatch_block Request srv w (set_data d f) = (Ok tt, f1) ->
  response f1 = Some r -> dumps_json_debug r = Some js ->
  logger srv = true ->
  let f2 := emit (EvSendall (encode (js ++ newline))) (emit EvDebug f1) in
  handle Request dumps_json_debug srv (w :: ws) f =
  match sendall_outcome w with
  | Ok _ => handle Request dumps_json_debug srv ws f2
  | Raise (OSErr BrokenPipeError) => (Returned BrokenPipe, f2)
  | Raise e =>
    handle Request dumps_json_debug srv ws (emit (EvException e) f2)
  end
  /\ forall ws' f0 r' f',
       handle Request dumps_json_debug srv ws' f0 = (Returned r', f') ->
       exists w', In w' ws' /\ close_transition w' r'.
Proof.
  intros Hp Hr Hd He E1 Hresp Hjs Hl f2.
  split; [|intros ws' f0 r' f'; apply handle_returns_by_break].
  cbn [handle].
  rewrite (loop_body_serve w f f1 chunk d Hp Hr Hd He E1).
  rewrite (respond_block_write w f1 r js Hresp Hjs Hl).
  destruct (sendall_outcome w) as [[]|[| | | | |[]| | |]]; reflexivity.
Qed.

(** When the body of the first [try] raises, the dispatch block
    leaves [response] as it found it and writes nothing. *)
Lemma dispatch_block_raise (w : world) (f : frame) (e : exn) :
  fst (dispatch_try Request srv w (set_lock_acquired false f)) = Raise e ->
  exists tr f',
    dispatch_block Request srv w f = (Ok tt, f')
    /\ trace f' = (trace f ++ tr)%list
    /\ response f' = response f
    /\ sends tr = [].
Proof.
  destruct f as [d la r tr0], srv as [cb lg], w as [p rc st co ao dp so].
  step_handler.
  destruct cb, lg, co as [[]|ec], ao, dp as [rr|ed];
    simpl; try destruct (Request d) as [rq|er]; simpl;
    intros H; try discriminate H;
    (eexists; eexists; split; [reflexivity|];
     split; [trace_shape|]; split; reflexivity).
Qed.

(** With no response at hand the respond block writes nothing and the
    loop goes on. *)
Lemma respond_block_unbound (w : world) (f : frame) :
  response f = None ->
  exists tr f',
    respond_block dumps_json_debug srv w f = (Ok Continue, f')
    /\ trace f' = (trace f ++ tr)%list
    /\ response f' = None
    /\ sends tr = [].
Proof.
  intros Hr. destruct f as [d la r tr0]. simpl in Hr. subst r.
  step_handler. destruct (logger srv); simpl;
    (eexists; eexists; split; [reflexivity|];
     split; [trace_shape|]; split; reflexivity).
Qed.

(** One pass in which an exception is raised in the body of the
    first [try] (no response has been assigned for the current
    request then): the pass still ends normally with [response] as it
    was in the frame; if that is unassigned, nothing is sent and the
    loop continues; if it holds a response, the message sent is the
    serialisation of that response. *)
Theorem stale_response_after_exception
    (w : world) (f : frame) (chunk : bytes) (d : str) (e : exn) :
  poll_ready w = true -> recv_outcome w = Ok chunk ->
  decode (strip chunk) = Ok d -> String.eqb d EmptyString = false ->
  fst (dispatch_try Request srv w (set_lock_acquired false (set_data d f)))
  = Raise e ->
  exists c f',
    loop_body Request dumps_json_debug srv w f = (Ok c, f')
    /\ response f' = response f
    /\ match response f with
       | None => c = Continue /\ sends (new_events f f') = []
       | Some prev =>
         forall js, logger srv = true -> dumps_json_debug prev = Some js ->
                    sends (new_events f f') = [encode (js ++ newline)]
       end.
Proof.
  intros Hp Hr Hd He Hraise.
  destruct (dispatch_block_raise w (set_data d f) e Hraise)
    as (tr1 & f1 & E1 & T1 & R1 & S1).
  rewrite (loop_body_serve w f f1 chunk d Hp Hr Hd He E1).
  simpl in T1, R1.
  destruct (response f) as [prev|] eqn:Hprev.
  - destruct (respond_block_spec w f1)
      as (c & tr2 & f2 & E2 & T2 & _ & R2 & _).
    exists c, f2. split; [exact E2|]. split; [congruence|].
    intros js Hl Hjs.
    rewrite (respond_block_write w f1 prev js R1 Hjs Hl) in E2.
    assert (T : exists tr2',
                 trace f2 = (trace f1 ++ tr2')%list
                 /\ sends tr2' = [encode (js ++ newline)]).
    { revert E2.
      destruct (sendall_outcome w) as [[]|[| | | | |[]| | |]];
        intros E2; inversion E2; subst f2;
        eexists; (split; [trace_shape | reflexivity]). }
    destruct T as (tr2' & T & S2).
    rewrite T1, <- app_assoc in T.
    rewrite (new_events_app f f2 _ T), sends_app, S1, S2. reflexivity.
  - destruct (respond_block_unbound w f1 R1)
      as (tr2 & f2 & E2 & T2 & R2 & S2).
    exists Continue, f2. split; [exact E2|]. split; [exact R2|].
    split; [reflexivity|].
    rewrite T1, <- app_assoc in T2.
    rewrite (new_events_app f f2 _ T2), sends_app, S1, S2. reflexivity.
Qed.

(** What a failed acquisition leads to. *)
Lemma dispatch_block_timeout (w : world) (f : frame) :
  exists tr f',
    dispatch_block Request srv w f = (Ok tt, f')
    /\ trace f' = (trace f ++ tr)%list
    /\ (In (EvAcquire 10 false) tr ->
        dispatches tr = 0
        /\ forall rq, logger srv = true -> Request (data f) = Ok rq ->
             response f'
             = Some (ErrorResponse (HTTP_STATUS_CODES 408)
                       match attr_request_id rq with
                       | Some v => v
                       | None => None
                       end
                       (-32000) "Timed out waiting for lock")).
Proof.
  destruct f as [d la r tr0], srv as [cb lg], w as [p rc st co ao dp so].
  step_handler.
  destruct cb, lg, co as [[]|ec], ao, dp as [rr|ed];
    simpl; try destruct (Request d) as [rq|er]; simpl;
    (eexists; eexists; split; [reflexivity|];
     split; [trace_shape|];
     intros H; simpl in H;
     repeat (destruct H as [H|H]; try discriminate H);
     try contradiction;
     (split; [reflexivity|]);
     intros rq' Hl Hq; try discriminate Hl; try discriminate Hq;
     inversion Hq; subst; reflexivity).
Qed.

(** What the timeout branch does get right. When the handler has
    tried for 10 units and failed to acquire the lock, the dispatcher
    is not entered in that pass, whatever else happens; and if the
    server has a logger and [Request(data)] constructs without
    raising, the response built is the [ErrorResponse] with code
    -32000, message "Timed out waiting for lock" and the request's id
    ([None] when it has none). *)
Theorem lock_timeout_error_response (w : world) (f : frame) (rq : request) :
  let f' := snd (dispatch_block Request srv w f) in
  In (EvAcquire 10 false) (new_events f f') ->
  dispatches (new_events f f') = 0
  /\ (logger srv = true ->
      Request (data f) = Ok rq ->
      response f'
      = Some (ErrorResponse (HTTP_STATUS_CODES 408)
                match attr_request_id rq with
                | Some v => v
                | None => None
                end
                (-32000) "Timed out waiting for lock")).
Proof.
  destruct (dispatch_block_timeout w f) as (tr & f' & E & T & H).
  rewrite E. simpl. rewrite (new_events_app f f' tr T).
  intros Hin. destruct (H Hin) as [D R].
  split; [exact D | exact (R rq)].
Qed.

(** An exception leaves a pass only from the read on line 39: from
    [recv] or from [decode]. *)
Lemma loop_body_raise (w : world) (f f' : frame) (e : exn) :
  loop_body Request dumps_json_debug srv w f = (Raise e, f') ->
  poll_ready w = true
  /\ (recv_outcome w = Raise e
      \/ exists chunk, recv_outcome w = Ok chunk
                       /\ decode (strip chunk) = Raise e).
Proof.
  unfold loop_body. unfold bind at 1.
  destruct (poll_ready w) eqn:Hp.
  - unfold_monad.
    destruct (recv_outcome w) as [chunk|e0] eqn:Hr.
    + destruct (decode (strip chunk)) as [d|e0] eqn:Hd.
      * destruct (String.eqb d EmptyString); [discriminate|].
        destruct (dispatch_block_spec w (set_data d f))
          as (tr1 & f1 & E1 & _).
        destruct (respond_block_spec w f1) as (c & tr2 & f2 & E2 & _).
        rewrite E1, E2. discriminate.
      * intros H. inversion H; subst. split; [reflexivity|].
        right. exists chunk. split; [reflexivity | exact Hd].
    + intros H. inversion H; subst. split; [reflexivity|]. left. reflexivity.
  - unfold_monad. destruct (stop_event_set w); discriminate.
Qed.

Lemma handle_propagates_from_read (ws : list world) (f f' : frame)
                                  (e : exn) :
  handle Request dumps_json_debug srv ws f = (Propagated e, f') ->
  exists w, In w ws
            /\ poll_ready w = true
            /\ (recv_outcome w = Raise e
                \/ exists chunk, recv_outcome w = Ok chunk
                                 /\ decode (strip chunk) = Raise e).
Proof.
  revert f. induction ws as [|w ws IH]; intros f; simpl; [discriminate|].
  destruct (loop_body Request dumps_json_debug srv w f)
    as [[[|r0]|e0] f1] eqn:E.
  - intros H. destruct (IH f1 H) as (w' & Hin & Hw). exists w'. auto.
  - discriminate.
  - intros H. inversion H; subst.
    exists w. split; [auto|]. exact (loop_body_raise w f f' e E).
Qed.

(** C4 (the failing input). A chunk that is not valid UTF-8 makes
    [decode] raise outside both [try] blocks: the exception leaves
    [handle], whatever the server and the later passes are. *)
Theorem invalid_utf8_escapes_handle (ws : list world) (f : frame) :
  handle Request dumps_json_debug srv (garbled :: ws) f
  = (Propagated UnicodeDecodeError, f).
Proof. reflexivity. Qed.

End Pass.

Import Samples.

(** A line feed alone closes the connection like an empty read. *)
Lemma whitespace_chunk_is_peer_close_witness :
  handle Request_accepting dumps walletd [receiving [x0a]] initial_frame
  = (Returned PeerClosed, set_data EmptyString initial_frame)
  /\ handle Request_accepting dumps walletd [receiving [x0a]] initial_frame
     = handle Request_accepting dumps walletd [receiving []] initial_frame
  /\ new_events initial_frame (set_data EmptyString initial_frame) = [].
Proof.
  exact (whitespace_chunk_is_peer_close
           Request_accepting dumps walletd
           (receiving [x0a]) (receiving []) [] initial_frame [x0a]
           eq_refl eq_refl eq_refl eq_refl eq_refl).
Defined.

(** A peer that hangs up before the response is written. *)
Lemma write_failure_transitions_witness :
  exists f2,
    handle Request_accepting dumps walletd [hung_up; served] initial_frame
    = (Returned BrokenPipe, f2)
    /\ sends (trace f2) = [encode ("id 7: 42" ++ newline)].
Proof.
  eexists. split.
  - exact (proj1 (write_failure_transitions
                    Request_accepting dumps walletd
                    hung_up [served] initial_frame
                    (snd (dispatch_block Request_accepting walletd hung_up
                            (set_data "{}" initial_frame)))
                    braces "{}" balance_response "id 7: 42"
                    eq_refl eq_refl eq_refl eq_refl eq_refl
                    eq_refl eq_refl eq_refl)).
  - reflexivity.
Defined.

(** The dispatcher raises after an earlier request was answered: the
    earlier answer goes out again. *)
Lemma stale_response_after_exception_witness :
  exists c f',
    loop_body Request_accepting dumps walletd crashing answered = (Ok c, f')
    /\ response f' = Some balance_response
    /\ sends (new_events answered f') = [encode ("id 7: 42" ++ newline)].
Proof.
  destruct (stale_response_after_exception
              Request_accepting dumps walletd crashing answered
              braces "{}" (LibraryError "dispatch")
              eq_refl eq_refl eq_refl eq_refl eq_refl)
    as (c & f' & E & R & S).
  exists c, f'. split; [exact E|]. split; [exact R|].
  exact (S "id 7: 42" eq_refl eq_refl).
Defined.

(** The same over a whole connection: one request answered, then two
    for which the dispatcher raises. All three messages written carry
    the first answer. *)
Lemma stale_response_replayed :
  sends (trace (snd (handle Request_accepting dumps walletd
                            [served; crashing; crashing] initial_frame)))
  = [encode ("id 7: 42" ++ newline);
     encode ("id 7: 42" ++ newline);
     encode ("id 7: 42" ++ newline)].
Proof. reflexivity. Qed.

(** ... and when it raises for the very first request, nothing is
    written at all. *)
Lemma first_request_unanswered :
  handle Request_accepting dumps walletd [crashing] initial_frame
  = (Polling,
     {| data := "{}"; lock_acquired := true; response := None;
        trace := [EvAcquire 10 true; EvDebug; EvDispatch "{}"; EvDispatched;
                  EvException (LibraryError "dispatch"); EvRelease;
                  EvException UnboundLocalError] |}).
Proof. reflexivity. Qed.

(** The lock stays taken; the request parses and carries id 7. *)
Lemma lock_timeout_error_response_witness :
  let f' := snd (dispatch_block Request_accepting walletd busy
                                (set_data "{}" initial_frame)) in
  dispatches (new_events (set_data "{}" initial_frame) f') = 0
  /\ response f'
     = Some (ErrorResponse 408 (Some (IdNum 7)) (-32000)
                           "Timed out waiting for lock").
Proof.
  destruct (lock_timeout_error_response
              Request_accepting walletd busy (set_data "{}" initial_frame)
              balance_request (or_introl eq_refl)) as [D R].
  split; [exact D | exact (R eq_refl eq_refl)].
Defined.

(** C1 (the failing inputs). The lock stays taken for the whole
    timeout, and the handler sets out to send the time-out response,
    yet no [ErrorResponse] is built: once because [Request(data)] on
    line 61 raises, once because the server has the default
    [logger=None] and the unguarded [logger.debug] on line 62 raises.
    Both exceptions are swallowed on line 69 and [response] stays
    unassigned. *)
Lemma lock_timeout_without_error_response :
  (let f' := snd (dispatch_block Request_rejecting walletd busy
                                 (set_data "{}" initial_frame)) in
   In (EvAcquire 10 false) (new_events (set_data "{}" initial_frame) f')
   /\ response f' = None)
  /\ (let f' := snd (dispatch_block Request_accepting silent busy
                                    (set_data "{}" initial_frame)) in
      In (EvAcquire 10 false) (new_events (set_data "{}" initial_frame) f')
      /\ response f' = None).
Proof.
  split; split; simpl; auto.
Qed.

End HandlerFacts.

(** ** The constructor *)

Module ServerFacts.
Import UnixSocketJSONRPCServer.

(** C3. With a file at the socket path: if the probe connects, the
    constructor raises [DaemonRunningError] right after the probe,
    with the file still there and nothing unlinked or bound; if the
    probe is refused, the file is unlinked and the constructor goes on
    to bind, which leaves a listening socket at the path unless the
    bind itself fails. *)
Theorem liveness_probe (tr : list init_event) (b : bool)
                       (bind_error : option os_error) :
  let h := {| socket_file_exists := true; bound := b; init_trace := tr |} in
  __init__ None bind_error h
  = (Raise (DaemonRunningError "A daemon is already running."),
     {| socket_file_exists := true; bound := b;
        init_trace := tr ++ [EvConnect] |})
  /\ __init__ (Some ConnectionRefusedError) bind_error h
     = match bind_error with
       | None =>
         (Ok tt, {| socket_file_exists := true; bound := true;
                    init_trace := tr ++ [EvConnect; EvUnlink; EvBind] |})
       | Some e =>
         (Raise (OSErr e),
          {| socket_file_exists := false; bound := b;
             init_trace := tr ++ [EvConnect; EvUnlink; EvBind] |})
       end.
Proof.
  split.
  - reflexivity.
  - unfold __init__, server_bind, bind, ret, raise, lift, gets, modify,
           try_catch, note, unlink, listen; simpl.
    rewrite <- !app_assoc. simpl.
    destruct bind_error; reflexivity.
Qed.

(** Any other failure of the probe leaves the constructor as it is,
    with the file in place. *)
Lemma probe_other_error (h : host) (e : os_error) (bind_error : option os_error) :
  socket_file_exists h = true -> e <> ConnectionRefusedError ->
  __init__ (Some e) bind_error h = (Raise (OSErr e), note EvConnect h).
Proof.
  intros Hx He.
  unfold __init__, bind, ret, raise, lift, gets, modify, try_catch.
  rewrite Hx. simpl. destruct e; try reflexivity. contradiction.
Qed.

(** Without a file there is no probe. *)
Lemma no_file_no_probe (h : host) (c : option os_error) :
  socket_file_exists h = false ->
  __init__ c None h = (Ok tt, listen (note EvBind h)).
Proof.
  intros Hx.
  unfold __init__, server_bind, bind, ret, raise, lift, gets, modify.
  rewrite Hx. simpl. rewrite Hx. reflexivity.
Qed.

End ServerFacts.

(** ** The client proxy *)

Module ProxyFacts.
Import UnixSocketServerProxy.

(** C5. The constructor raises [DaemonNotRunningError] exactly when
    [connect] fails with [FileNotFoundError] or
    [ConnectionRefusedError]; and [send_message] turns every
    [ConnectionError] of [sendall] into [DaemonNotRunningError], while
    other errors of [sendall] pass unchanged. *)
Theorem daemon_not_running
    (connect_error : option os_error) (s : sock)
    (message : str + bytes) (expect_reply : bool) (e : os_error)
    (inbox : list (result bytes)) :
  ((exists msg s', __init__ connect_error s
                   = (Raise (DaemonNotRunningError msg), s'))
   <-> (connect_error = Some FileNotFoundError
        \/ connect_error = Some ConnectionRefusedError))
  /\ fst (send_message message expect_reply (Some e) inbox s)
     = if is_ConnectionError e
       then Raised (DaemonNotRunningError not_running_msg)
       else Raised (OSErr e).
Proof.
  split.
  - split.
    + intros (msg & s' & H). revert H.
      unfold __init__, bind, lift, modify, raise, try_catch.
      destruct connect_error as [[]|]; simpl; intros H;
        try discriminate H; auto.
    + intros [-> | ->]; exists not_running_msg, s; reflexivity.
  - unfold send_message, bind, lift, modify, raise, try_catch.
    destruct e; reflexivity.
Qed.

Lemma daemon_not_running_witness :
  __init__ (Some FileNotFoundError) fresh_sock
  = (Raise (DaemonNotRunningError not_running_msg), fresh_sock)
  /\ fst (send_message (inl "{}") true (Some BrokenPipeError) [] fresh_sock)
     = Raised (DaemonNotRunningError not_running_msg).
Proof.
  split.
  - reflexivity.
  - exact (proj2 (daemon_not_running
                    (Some FileNotFoundError) fresh_sock
                    (inl "{}") true BrokenPipeError [])).
Defined.

(** A call that wants a response wraps its arguments in one object. *)
Lemma request_params_wrapped (name : string) (args : list pyval)
                             (kwargs : kwargs_t) :
  truthy (get kwargs "response" (PBool true)) = true ->
  __getattr__ name args kwargs
  = request name [PList [params_object args kwargs]] [].
Proof.
  intros H. unfold __getattr__. rewrite H. reflexivity.
Qed.

(** A call that does not hands its arguments on as they are, the
    [response] flag among them. *)
Lemma notify_params_bare (name : string) (args : list pyval)
                         (kwargs : kwargs_t) :
  truthy (get kwargs "response" (PBool true)) = false ->
  __getattr__ name args kwargs = notify name args kwargs.
Proof.
  intros H. unfold __getattr__. rewrite H. reflexivity.
Qed.

(** C6 (the failing input). [proxy.sync(1, response=False)] calls
    [notify] with the bare arguments, where the same call without the
    flag wraps them in [{args, kwargs}]. *)
Theorem notify_call_is_not_wrapped :
  __getattr__ "sync" [PInt 1] [("response", PBool false)]
  = notify "sync" [PInt 1] [("response", PBool false)]
  /\ __getattr__ "sync" [PInt 1] []
     = request "sync"
               [PList [PDict [("args", PList [PInt 1]);
                              ("kwargs", PDict [])]]] [].
Proof. split; reflexivity. Qed.

(** Without [expect_reply], [send_message] returns the empty text
    without reading from the socket. *)
Lemma send_message_no_reply (message : str + bytes)
                            (inbox : list (result bytes)) (s : sock) :
  exists s', send_message message false None inbox s = (Reply EmptyString, s')
             /\ recv_calls s' = recv_calls s.
Proof.
  eexists. split; reflexivity.
Qed.

End ProxyFacts.

(** ** Handlers sharing the lock *)

Module InterleavingFacts.
Import UnixSocketJSONRPCServer Interleaving.

Lemma proj_app (i : nat) (a b : list gevent) :
  proj i (a ++ b) = (proj i a ++ proj i b)%list.
Proof.
  unfold proj. rewrite filter_app, map_app. reflexivity.
Qed.

Lemma proj_snoc (i : nat) (g : list gevent) (k : nat) (e : event) :
  proj i (g ++ [(k, e)])
  = if Nat.eqb k i then (proj i g ++ [e])%list else proj i g.
Proof.
  rewrite proj_app. unfold proj at 2. simpl.
  destruct (Nat.eqb k i); simpl; [reflexivity | apply app_nil_r].
Qed.

Lemma lock_run_app (h : option nat) (a b : list gevent) :
  lock_run h (a ++ b) =
  match lock_run h a with
  | Some h' => lock_run h' b
  | None => None
  end.
Proof.
  revert h. induction a as [|x a IH]; intros h; simpl; [reflexivity|].
  destruct (lock_step h x); [apply IH | reflexivity].
Qed.

Lemma status_run_prefix (st st' : status) (a b : list event) :
  status_run st (a ++ b) = Some st' -> exists s, status_run st a = Some s.
Proof.
  rewrite HandlerFacts.status_run_app.
  destruct (status_run st a) as [s|]; [eauto | discriminate].
Qed.

(** Leaving the dispatcher is the only way to stop being inside it. *)
Lemma leaves_by_return (tr : list event) (st st' : status) :
  holding st = true -> inside st = true ->
  status_run st tr = Some st' -> inside st' = false ->
  In EvDispatched tr.
Proof.
  revert st. induction tr as [|e tr IH]; intros st Hh Hi; simpl.
  - intros H Hn. inversion H; subst. congruence.
  - destruct e; simpl; rewrite ?Hh, ?Hi; simpl;
      try discriminate; auto;
      intros H Hn; right; exact (IH st Hh Hi H Hn).
Qed.

Lemma status_inside (tr : list event) (st st' : status) :
  status_run st tr = Some st' -> inside st' = in_dispatcher (inside st) tr.
Proof.
  revert st. induction tr as [|e tr IH]; intros st; simpl.
  - intros H. inversion H. reflexivity.
  - destruct (status_step st e) as [s1|] eqn:E; [|discriminate].
    intros H. rewrite (IH s1 H). clear H IH.
    destruct st as [hs ins], e; simpl in *;
      try (inversion E; subst; reflexivity);
      destruct hs, ins; simpl in *; try discriminate;
      inversion E; subst; reflexivity.
Qed.

Lemma In_proj (i : nat) (e : event) (g : list gevent) :
  In e (proj i g) -> In (i, e) g.
Proof.
  unfold proj. intros H. apply in_map_iff in H as ([k e'] & He & Hin).
  apply filter_In in Hin as [Hin Hk]. simpl in *.
  apply Nat.eqb_eq in Hk. subst. exact Hin.
Qed.

Lemma status_step_dispatch (st st' : status) (d : str) :
  status_step st (EvDispatch d) = Some st' ->
  holding st' = true /\ inside st' = true.
Proof.
  simpl. destruct (holding st && negb (inside st)); [|discriminate].
  intros H. inversion H. auto.
Qed.

Section Server.

Variable Request : str -> result request.
Variable dumps_json_debug : Response -> option str.
Variable srv : server.

(** Every trace of [handle] obeys the lock discipline and ends, at a
    pass boundary, with the lock not held. *)
Lemma handle_disciplined (ws : list world) (f : frame) :
  status_run idle (trace f) = Some idle ->
  status_run idle (trace (snd (handle Request dumps_json_debug srv ws f)))
  = Some idle.
Proof.
  revert f. induction ws as [|w ws IH]; intros f Hf; simpl; [exact Hf|].
  destruct (HandlerFacts.loop_body_spec Request dumps_json_debug srv w f)
    as (res & tr & f' & E & T & S & _).
  rewrite E.
  assert (Hf' : status_run idle (trace f') = Some idle)
    by (rewrite T, HandlerFacts.status_run_app, Hf; exact S).
  destruct res as [[|r]|e]; simpl; auto.
Qed.

Lemma handler_threads_prefix (a b : list gevent) :
  handler_threads Request dumps_json_debug srv (a ++ b) ->
  handler_threads Request dumps_json_debug srv a.
Proof.
  intros H i. destruct (H i) as (ws & rest & E).
  exists ws, (proj i b ++ rest)%list.
  rewrite E, proj_app, app_assoc. reflexivity.
Qed.

Lemma handler_threads_status (g : list gevent) (i : nat) :
  handler_threads Request dumps_json_debug srv g ->
  exists st, status_run idle (proj i g) = Some st.
Proof.
  intros H. destruct (H i) as (ws & rest & E).
  apply (status_run_prefix idle idle (proj i g) rest).
  rewrite <- E. apply handle_disciplined. reflexivity.
Qed.

(** The invariant: a thread believes it holds the lock exactly when
    it is the holder, and is inside the dispatcher only then. *)
Lemma holder_invariant (g : list gevent) :
  handler_threads Request dumps_json_debug srv g ->
  forall h, lock_run None g = Some h ->
  forall i st, status_run idle (proj i g) = Some st ->
    (holding st = true <-> h = Some i)
    /\ (inside st = true -> holding st = true).
Proof.
  induction g as [|[k e] g IH] using rev_ind.
  - intros _ h Hh i st Hst. simpl in *.
    inversion Hh; inversion Hst; subst. simpl.
    split; [split|]; discriminate.
  - intros Ht h Hh i st Hst.
    pose proof (handler_threads_prefix g [(k, e)] Ht) as Htg.
    rewrite lock_run_app in Hh.
    destruct (lock_run None g) as [h0|] eqn:Hh0; [|discriminate].
    simpl in Hh.
    destruct (lock_step h0 (k, e)) as [h1|] eqn:Hstep; [|discriminate].
    inversion Hh; subst h1. clear Hh.
    specialize (IH Htg h0 eq_refl).
    destruct (handler_threads_status g k Htg) as [sk Hsk].
    destruct (handler_threads_status (g ++ [(k, e)]) k Ht) as [sk' Hsk'].
    rewrite proj_snoc, Nat.eqb_refl, HandlerFacts.status_run_app, Hsk in Hsk'.
    simpl in Hsk'.
    destruct (status_step sk e) as [sk1|] eqn:Hk; [|discriminate].
    inversion Hsk'; subst sk1. clear Hsk'.
    destruct (IH k sk Hsk) as [Hk1 Hk2].
    rewrite proj_snoc in Hst.
    destruct (Nat.eqb k i) eqn:Hki.
    + apply Nat.eqb_eq in Hki. subst i.
      rewrite HandlerFacts.status_run_app, Hsk in Hst. simpl in Hst.
      rewrite Hk in Hst. inversion Hst; subst st. clear Hst.
      unfold lock_step in Hstep. simpl in Hstep.
      destruct sk as [hk ik].
      destruct e as [| t []| | | | | |]; simpl in *;
        try (inversion Hk; inversion Hstep; subst; tauto);
        destruct hk, ik, h0 as [j|]; simpl in *;
        try discriminate;
        inversion Hk; inversion Hstep; subst; simpl;
        repeat split; try tauto; try congruence; try discriminate;
        intros; exfalso;
        try (destruct Hk1 as [A B]; first [ discriminate (A eq_refl)
                                          | discriminate (B eq_refl) ]).
    + apply Nat.eqb_neq in Hki.
      destruct (IH i st Hst) as [Hi1 Hi2].
      split; [|exact Hi2].
      unfold lock_step in Hstep. simpl in Hstep.
      destruct sk as [hk ik].
      destruct e as [| t []| | | | | |]; simpl in *;
        try (inversion Hstep; subst; exact Hi1);
        destruct hk, ik, h0 as [j|]; simpl in *;
        try discriminate;
        inversion Hstep; subst;
        split; intros X;
        try (apply Hi1 in X);
        try (destruct Hk1 as [A B]; pose proof (A eq_refl));
        congruence.
Qed.

(** The state of thread [i] right after it has entered the
    dispatcher. *)
Lemma entered (g : list gevent) (i : nat) (d : str) :
  handler_threads Request dumps_json_debug srv (g ++ [(i, EvDispatch d)]) ->
  exists st, status_run idle (proj i (g ++ [(i, EvDispatch d)])) = Some st
             /\ holding st = true /\ inside st = true.
Proof.
  intros Ht.
  destruct (handler_threads_status _ i Ht) as [st Hst].
  exists st. split; [exact Hst|].
  rewrite proj_snoc, Nat.eqb_refl, HandlerFacts.status_run_app in Hst.
  destruct (status_run idle (proj i g)) as [s0|]; [|discriminate].
  cbn [status_run] in Hst.
  destruct (status_step s0 (EvDispatch d)) as [s1|] eqn:E; [|discriminate].
  inversion Hst; subst s1.
  exact (status_step_dispatch s0 st d E).
Qed.

(** C2. Take any interleaving [g] of the events of handler threads of
    one server that respects the lock. Then a thread that is inside
    the dispatcher is the holder of the lock; no two threads are
    inside the dispatcher at once; and when two different threads
    enter the dispatcher one after the other, the first has left it
    before the second enters. *)
Theorem dispatches_never_interleave (g : list gevent) (h : option nat) :
  handler_threads Request dumps_json_debug srv g ->
  lock_run None g = Some h ->
  (forall i, executing i g = true -> h = Some i)
  /\ (forall i j, executing i g = true -> executing j g = true -> i = j)
  /\ (forall i j d d' g1 g2 g3,
        i <> j ->
        g = (g1 ++ (i, EvDispatch d) :: g2 ++ (j, EvDispatch d') :: g3)%list ->
        In (i, EvDispatched) g2).
Proof.
  intros Ht Hh.
  assert (Hold : forall g' h', handler_threads Request dumps_json_debug srv g' ->
                   lock_run None g' = Some h' ->
                   forall i, executing i g' = true -> h' = Some i).
  { intros g' h' Ht' Hh' i Hi. unfold executing in Hi.
    destruct (handler_threads_status g' i Ht') as [st Hst].
    destruct (holder_invariant g' Ht' h' Hh' i st Hst) as [A B].
    apply A, B.
    transitivity (executing i g');
      [exact (status_inside _ idle st Hst) | exact Hi]. }
  split; [exact (Hold g h Ht Hh)|]. split.
  - intros i j Hi Hj.
    pose proof (Hold g h Ht Hh i Hi) as Ei.
    pose proof (Hold g h Ht Hh j Hj) as Ej.
    congruence.
  - intros i j d d' g1 g2 g3 Hij Hg.
    pose (p1 := (g1 ++ [(i, EvDispatch d)])%list).
    pose (p2 := ((p1 ++ g2) ++ [(j, EvDispatch d')])%list).
    assert (Eg : g = (p2 ++ g3)%list).
    { unfold p2, p1. rewrite Hg, <- !app_assoc. reflexivity. }
    rewrite Eg in Ht, Hh.
    assert (Ht2 : handler_threads Request dumps_json_debug srv p2)
      by exact (handler_threads_prefix _ _ Ht).
    assert (Ht1 : handler_threads Request dumps_json_debug srv p1)
      by exact (handler_threads_prefix _ _ (handler_threads_prefix _ _ Ht2)).
    rewrite lock_run_app in Hh.
    destruct (lock_run None p2) as [h2|] eqn:Hh2; [|discriminate].
    (* thread j has just entered *)
    destruct (entered (p1 ++ g2) j d' Ht2) as (sj & Hsj & _ & Hjin).
    assert (Ej : executing j p2 = true).
    { transitivity (inside sj);
        [symmetry; exact (status_inside _ idle sj Hsj) | exact Hjin]. }
    pose proof (Hold p2 h2 Ht2 Hh2 j Ej) as Eh2.
    (* thread i entered earlier *)
    destruct (entered g1 i d Ht1) as (s1 & Hs1 & Hs1h & Hs1i).
    assert (Hs1' : status_run idle (proj i p1) = Some s1) by exact Hs1.
    (* ... and does not hold the lock now *)
    destruct (handler_threads_status p2 i Ht2) as [si Hsi].
    destruct (holder_invariant p2 Ht2 h2 Hh2 i si Hsi) as [A B].
    assert (Hni : inside si = false).
    { destruct (inside si); [|reflexivity].
      pose proof (proj1 A (B eq_refl)). congruence. }
    assert (Ep : proj i p2 = (proj i p1 ++ proj i g2)%list).
    { unfold p2. rewrite proj_snoc.
      destruct (Nat.eqb j i) eqn:Eji.
      - apply Nat.eqb_eq in Eji. congruence.
      - apply proj_app. }
    rewrite Ep, HandlerFacts.status_run_app, Hs1' in Hsi.
    apply In_proj.
    exact (leaves_by_return (proj i g2) s1 si Hs1h Hs1i Hsi Hni).
Qed.

End Server.

(** Two handlers, each serving one request in turn. *)
Lemma dispatches_never_interleave_witness :
  let g := [(0, EvAcquire 10 true); (0, EvDebug); (0, EvDispatch "{}");
            (1, EvAcquire 10 false); (1, EvDebug);
            (0, EvDispatched); (0, EvDebug); (0, EvRelease);
            (1, EvDebug);
            (1, EvSendall (encode ("Timed out waiting for lock" ++ newline)));
            (1, EvAcquire 10 true); (1, EvDebug); (1, EvDispatch "{}")] in
  lock_run None g = Some (Some 1)
  /\ executing 1 g = true
  /\ executing 0 g = false.
Proof.
  intros g.
  assert (Ht : handler_threads Samples.Request_accepting Samples.dumps
                               Samples.walletd g).
  { intros [|[|i]].
    - exists [Samples.served]. eexists. cbv. reflexivity.
    - exists [Samples.busy; Samples.served]. eexists. cbv. reflexivity.
    - exists []. exists []. reflexivity. }
  destruct (dispatches_never_interleave
              Samples.Request_accepting Samples.dumps Samples.walletd
              g (Some 1) Ht eq_refl) as (H1 & H2 & H3).
  split; [reflexivity|]. split; [reflexivity|].
  destruct (executing 0 g) eqn:E; [|reflexivity].
  discriminate (H2 0 1 E eq_refl).
Defined.

End InterleavingFacts.

(** ** Frames: what the handler writes and what the proxy reads *)

Module WireFacts.
Import UnixSocketJSONRPCServer Wire HandlerFacts.

Lemma encode_app (a b : str) :
  encode (a ++ b) = (encode a ++ encode b)%list.
Proof.
  unfold encode, list_byte_of_string.
  induction a as [|c a IH]; simpl; [reflexivity|].
  f_equal. exact IH.
Qed.

Lemma string_of_list_byte_app (a b : bytes) :
  string_of_list_byte (a ++ b)
  = string_of_list_byte a ++ string_of_list_byte b.
Proof.
  unfold string_of_list_byte.
  induction a as [|c a IH]; simpl; [reflexivity|].
  f_equal. exact IH.
Qed.

Lemma encode_newline : encode newline = [x0a].
Proof. reflexivity. Qed.

Lemma ends_with_lf_snoc (bs : bytes) :
  ends_with_lf (bs ++ [x0a])%list = true.
Proof.
  unfold ends_with_lf. rewrite rev_app_distr. reflexivity.
Qed.

Lemma ascii_utf8_valid (bs : bytes) :
  ascii_only bs = true -> utf8_valid bs = true.
Proof.
  induction bs as [|b r IH]; simpl; [reflexivity|].
  intros H. apply andb_prop in H as [Hb Hr].
  rewrite Hb. exact (IH Hr).
Qed.

Section Pass.

Variable Request : str -> result request.
Variable dumps_json_debug : Response -> option str.
Variable srv : server.

(** The respond block writes at most one message, a serialised
    response followed by a line feed. *)
Lemma respond_block_sends (w : world) (f : frame) :
  exists c tr f',
    respond_block dumps_json_debug srv w f = (Ok c, f')
    /\ trace f' = (trace f ++ tr)%list
    /\ (sends tr = []
        \/ exists js, sends tr = [encode (js ++ newline)]).
Proof.
  destruct f as [d la r tr0], srv as [cb lg], w as [p rc st co ao dp so].
  step_handler.
  repeat break_match;
    (do 3 eexists; split; [reflexivity|];
     split; [trace_shape|];
     first [ left; reflexivity | right; eexists; reflexivity ]).
Qed.

Lemma loop_body_sends (w : world) (f : frame) :
  exists res tr f',
    loop_body Request dumps_json_debug srv w f = (res, f')
    /\ trace f' = (trace f ++ tr)%list
    /\ (sends tr = []
        \/ exists js, sends tr = [encode (js ++ newline)]).
Proof.
  unfold loop_body. unfold bind at 1.
  destruct (poll_ready w).
  - unfold_monad.
    destruct (recv_outcome w) as [chunk|e];
      [|exists (Raise e), [], f; rewrite app_nil_r; simpl; auto].
    destruct (decode (strip chunk)) as [d|e];
      [|exists (Raise e), [], f; rewrite app_nil_r; simpl; auto].
    destruct (String.eqb d EmptyString).
    + exists (Ok (Break PeerClosed)), [], (set_data d f).
      simpl. rewrite app_nil_r. auto.
    + destruct (dispatch_block_spec Request srv w (set_data d f))
        as (tr1 & f1 & E1 & T1 & _ & _ & _ & _ & _ & S1).
      destruct (respond_block_sends w f1) as (c & tr2 & f2 & E2 & T2 & S2).
      rewrite E1, E2.
      exists (Ok c), (tr1 ++ tr2)%list, f2.
      split; [reflexivity|].
      split; [rewrite T2, T1, app_assoc; reflexivity|].
      rewrite sends_app, S1. exact S2.
  - unfold_monad.
    destruct (stop_event_set w);
      [exists (Ok (Break StopEvent)), [], f
      |exists (Ok Continue), [], f];
      rewrite app_nil_r; simpl; auto.
Qed.

(** X1. Over a whole connection the handler writes at most one
    message per pass of its loop, and every message it writes ends in
    a line feed. *)
Theorem frames_end_with_line_feed (ws : list world) (f : frame) :
  exists extra,
    sends (trace (snd (handle Request dumps_json_debug srv ws f)))
    = (sends (trace f) ++ extra)%list
    /\ forallb ends_with_lf extra = true
    /\ List.length extra <= List.length ws.
Proof.
  revert f. induction ws as [|w ws IH]; intros f; simpl.
  - exists []. rewrite app_nil_r. auto.
  - destruct (loop_body_sends w f) as (res & tr & f' & E & T & S).
    rewrite E.
    assert (H1 : exists one, sends (trace f') = (sends (trace f) ++ one)%list
                             /\ forallb ends_with_lf one = true
                             /\ List.length one <= 1).
    { rewrite T, sends_app. destruct S as [-> | [js ->]].
      - exists []. simpl. auto.
      - exists [encode (js ++ newline)]. simpl.
        rewrite encode_app, encode_newline, ends_with_lf_snoc. auto. }
    destruct H1 as (one & S1 & L1 & N1).
    destruct res as [[|r]|e]; simpl.
    + destruct (IH f') as (extra & S2 & L2 & N2).
      exists (one ++ extra)%list.
      rewrite S2, S1, <- app_assoc, forallb_app, L1, L2, length_app.
      repeat split; auto. lia.
    + exists one. repeat split; auto. lia.
    + exists one. repeat split; auto. lia.
Qed.

(** X2. A handler with no traffic does nothing until the stop flag is
    set, and then returns at once: passes in which the poll times out
    leave the frame as it is. *)
Theorem idle_until_stopped (ws1 ws2 : list world) (w : world) (f : frame) :
  forallb idle_pass ws1 = true ->
  poll_ready w = false -> stop_event_set w = true ->
  handle Request dumps_json_debug srv (ws1 ++ w :: ws2) f
  = (Returned StopEvent, f).
Proof.
  intros H1 Hp Hs. induction ws1 as [|v ws1 IH]; simpl.
  - unfold loop_body. unfold_monad. rewrite Hp, Hs. reflexivity.
  - simpl in H1. apply andb_prop in H1 as [Hv H1].
    unfold idle_pass in Hv. apply andb_prop in Hv as [Hvp Hvs].
    apply negb_true_iff in Hvp, Hvs.
    unfold loop_body at 1. unfold_monad. rewrite Hvp, Hvs.
    exact (IH H1).
Qed.

(** X3. When the request callback raises, the request is dropped
    there: the exception is logged (if there is a logger), the lock
    is not even tried, the dispatcher is not entered, and [response]
    keeps its earlier value. *)
Theorem callback_exception_drops_request
    (w : world) (f : frame) (e : exn) :
  _request_cb srv = true -> request_cb_outcome w = Raise e ->
  exists f',
    dispatch_block Request srv w f = (Ok tt, f')
    /\ response f' = response f
    /\ new_events f f'
       = EvCallback (data f) :: (if logger srv then [EvException e] else []).
Proof.
  intros Hcb Hco.
  destruct f as [d la r tr0], srv as [cb lg], w as [p rc st co ao dp so].
  simpl in Hcb, Hco. subst cb co.
  step_handler.
  destruct lg; simpl; eexists; (split; [reflexivity|]);
    (split; [reflexivity|]); apply new_events_app; trace_shape.
Qed.

(** Dispatch and respond blocks of a server without logger. *)
Lemma serve_silent (w : world) (g : frame) :
  logger srv = false ->
  exists c tr g',
    bind (dispatch_block Request srv w)
         (fun _ => respond_block dumps_json_debug srv w) g = (Ok c, g')
    /\ trace g' = (trace g ++ tr)%list
    /\ dispatches tr = 0 /\ sends tr = [].
Proof.
  intros Hl.
  destruct g as [d0 la r tr0], srv as [cb lg], w as [p rc st co ao dp so].
  simpl in Hl. subst lg. step_handler.
  destruct cb, co as [[]|ec], ao; simpl;
    try destruct (Request d0) as [rq|er]; simpl;
    destruct r as [r|]; simpl;
    try destruct (dumps_json_debug r) as [js|]; simpl;
    (do 3 eexists; split; [reflexivity|];
     split; [trace_shape|]; split; reflexivity).
Qed.

(** One pass of a server without logger. *)
Lemma loop_body_silent (w : world) (f : frame) :
  logger srv = false ->
  exists res tr f',
    loop_body Request dumps_json_debug srv w f = (res, f')
    /\ trace f' = (trace f ++ tr)%list
    /\ dispatches tr = 0 /\ sends tr = [].
Proof.
  intros Hl. unfold loop_body. unfold bind at 1.
  destruct (poll_ready w).
  - unfold lift, ret, modify. unfold bind at 1 2 3.
    destruct (recv_outcome w) as [chunk|e];
      [|exists (Raise e), [], f; rewrite app_nil_r; simpl; auto].
    destruct (decode (strip chunk)) as [d|e];
      [|exists (Raise e), [], f; rewrite app_nil_r; simpl; auto].
    destruct (String.eqb d EmptyString).
    + exists (Ok (Break PeerClosed)), [], (set_data d f).
      simpl. rewrite app_nil_r. auto.
    + destruct (serve_silent w (set_data d f) Hl)
        as (c & tr & g' & E & T & D & S).
      rewrite E. exists (Ok c), tr, g'. auto.
  - unfold_monad.
    destruct (stop_event_set w);
      [exists (Ok (Break StopEvent)), [], f
      |exists (Ok Continue), [], f];
      rewrite app_nil_r; simpl; auto.
Qed.

(** X4. A server constructed with the default [logger=None] never
    enters the dispatcher and never writes to the socket, whatever
    its clients send: [logger.debug] raises before either. *)
Theorem no_logger_no_service (ws : list world) (f : frame) :
  logger srv = false ->
  let f' := snd (handle Request dumps_json_debug srv ws f) in
  dispatches (new_events f f') = 0 /\ sends (new_events f f') = [].
Proof.
  intros Hl.
  assert (H : exists tr,
             trace (snd (handle Request dumps_json_debug srv ws f))
             = (trace f ++ tr)%list
             /\ dispatches tr = 0 /\ sends tr = []).
  { revert f. induction ws as [|w ws IH]; intros f; simpl.
    - exists []. rewrite app_nil_r. auto.
    - destruct (loop_body_silent w f Hl) as (res & tr & f' & E & T & D & S).
      rewrite E.
      destruct res as [[|r]|e]; simpl.
      + destruct (IH f') as (tr2 & T2 & D2 & S2).
        exists (tr ++ tr2)%list.
        rewrite T2, T, app_assoc, dispatches_app, sends_app, D, D2, S, S2.
        auto.
      + exists tr. auto.
      + exists tr. auto. }
  destruct H as (tr & T & D & S).
  simpl. rewrite (new_events_app _ _ tr T). auto.
Qed.

End Pass.

Lemma idle_until_stopped_witness :
  handle Samples.Request_accepting Samples.dumps Samples.walletd
         [quiet; quiet; stopping; Samples.served] initial_frame
  = (Returned StopEvent, initial_frame).
Proof.
  exact (idle_until_stopped
           Samples.Request_accepting Samples.dumps Samples.walletd
           [quiet; quiet] [Samples.served] stopping initial_frame
           eq_refl eq_refl eq_refl).
Defined.

Lemma callback_exception_drops_request_witness :
  exists f',
    dispatch_block Samples.Request_accepting guarded vetoing
                   (set_data "{}" initial_frame) = (Ok tt, f')
    /\ response f' = None
    /\ new_events (set_data "{}" initial_frame) f'
       = [EvCallback "{}"; EvException (LibraryError "callback")].
Proof.
  exact (callback_exception_drops_request
           Samples.Request_accepting guarded vetoing
           (set_data "{}" initial_frame) (LibraryError "callback")
           eq_refl eq_refl).
Defined.

Lemma no_logger_no_service_witness :
  let f' := snd (handle Samples.Request_accepting Samples.dumps
                        Samples.silent [Samples.served; Samples.served]
                        initial_frame) in
  dispatches (new_events initial_frame f') = 0
  /\ sends (new_events initial_frame f') = [].
Proof.
  exact (no_logger_no_service
           Samples.Request_accepting Samples.dumps Samples.silent
           [Samples.served; Samples.served] initial_frame eq_refl).
Defined.

End WireFacts.

(** ** The proxy's read loop, and round trips through the socket *)

Module RoundTripFacts.
Import UnixSocketJSONRPCServer Wire HandlerFacts WireFacts.
Local Open Scope list_scope.

Lemma lstrip_length (bs : bytes) : List.length (lstrip bs) <= List.length bs.
Proof.
  induction bs as [|b r IH]; simpl; [lia|].
  destruct (is_space b); simpl; lia.
Qed.

Lemma lstrip_fixed (bs : bytes) :
  List.length (lstrip bs) = List.length bs -> lstrip bs = bs.
Proof.
  destruct bs as [|b r]; simpl; [reflexivity|].
  destruct (is_space b); [|reflexivity].
  pose proof (lstrip_length r). lia.
Qed.

Lemma rstrip_length (bs : bytes) : List.length (rstrip bs) <= List.length bs.
Proof.
  unfold rstrip. rewrite length_rev.
  pose proof (lstrip_length (rev bs)). rewrite length_rev in H. exact H.
Qed.

(** Text that [strip] leaves alone has no whitespace at either end. *)
Lemma strip_fixed (bs : bytes) :
  strip bs = bs -> lstrip bs = bs /\ rstrip bs = bs.
Proof.
  intros H.
  assert (L : lstrip bs = bs).
  { apply lstrip_fixed.
    pose proof (lstrip_length bs).
    pose proof (rstrip_length (lstrip bs)).
    unfold strip in H. rewrite H in H1. lia. }
  split; [exact L|]. unfold strip in H. rewrite L in H. exact H.
Qed.

Lemma lstrip_app (bs t : bytes) :
  bs <> [] -> lstrip bs = bs -> lstrip (bs ++ t) = (bs ++ t)%list.
Proof.
  destruct bs as [|b r]; [contradiction|]. intros _. simpl.
  destruct (is_space b) eqn:E; [|reflexivity].
  intros H. pose proof (lstrip_length r).
  rewrite H in H0. simpl in H0. lia.
Qed.

Lemma rstrip_line_feed (bs : bytes) :
  rstrip (bs ++ [x0a]) = rstrip bs.
Proof.
  unfold rstrip. rewrite rev_app_distr. reflexivity.
Qed.

(** The line feed that frames a message is taken off again by
    [strip]. *)
Lemma strip_framed (bs : bytes) :
  bs <> [] -> strip bs = bs -> strip (bs ++ [x0a]) = bs.
Proof.
  intros Hne H. destruct (strip_fixed bs H) as [L R].
  unfold strip. rewrite (lstrip_app bs [x0a] Hne L), rstrip_line_feed.
  exact R.
Qed.

Lemma read_reply_sent (inbox : list (result bytes)) (rv : str)
                      (s : UnixSocketServerProxy.sock) :
  UnixSocketServerProxy.sent
    (snd (UnixSocketServerProxy.read_reply inbox rv s))
  = UnixSocketServerProxy.sent s.
Proof.
  revert rv s. induction inbox as [|r rest IH]; intros rv s; simpl;
    [reflexivity|].
  destruct r as [chunk|e]; [|reflexivity].
  destruct (decode chunk) as [text|e]; [|reflexivity].
  destruct (rev chunk) as [|last l]; [reflexivity|].
  destruct (Byte.eqb last x0a); [reflexivity|].
  rewrite IH. reflexivity.
Qed.

(** The dispatch block of a server with a logger and without a
    callback, once it has the lock, enters the dispatcher with
    [data]. *)
Lemma dispatch_block_enters (Request : str -> result request)
                            (srv : server) (w : world) (f : frame) :
  logger srv = true -> _request_cb srv = false -> acquire_outcome w = true ->
  exists tr f',
    dispatch_block Request srv w f = (Ok tt, f')
    /\ trace f' = (trace f ++ tr)%list
    /\ data f' = data f
    /\ In (EvDispatch (data f)) tr.
Proof.
  intros Hl Hcb Ha.
  destruct f as [d la r tr0], srv as [cb lg], w as [p rc st co ao dp so].
  simpl in Hl, Hcb, Ha. subst lg cb ao.
  step_handler.
  destruct dp as [rr|ed]; simpl;
    (eexists; eexists; split; [reflexivity|];
     split; [trace_shape|]; split; [reflexivity|]; simpl; auto).
Qed.

(** X5. From the proxy to the dispatcher: for a message that is valid
    UTF-8, not empty and without whitespace at its ends,
    [send_message] writes the message followed by one line feed, and
    a handler that receives exactly these bytes makes the very same
    text its [data] and, holding the lock, hands it to the
    dispatcher. *)
Theorem message_reaches_dispatcher
    (Request : str -> result request)
    (dumps_json_debug : Response -> option str) (srv : server)
    (m : str) (expect_reply : bool) (inbox : list (result bytes))
    (s : UnixSocketServerProxy.sock) (w : world) (f : frame) :
  utf8_valid (encode m) = true ->
  strip (encode m) = encode m ->
  m <> EmptyString ->
  let wire := (encode m ++ [x0a])%list in
  UnixSocketServerProxy.sent
    (snd (UnixSocketServerProxy.send_message (inl m) expect_reply None
                                             inbox s))
  = (UnixSocketServerProxy.sent s ++ [wire])%list
  /\ (poll_ready w = true -> recv_outcome w = Ok wire ->
      logger srv = true -> _request_cb srv = false ->
      acquire_outcome w = true ->
      let f' := snd (loop_body Request dumps_json_debug srv w f) in
      data f' = m /\ In (EvDispatch m) (new_events f f')).
Proof.
  intros Hv Hs Hne wire. split.
  - unfold UnixSocketServerProxy.send_message.
    unfold try_catch, bind, modify, lift. simpl.
    destruct expect_reply; [rewrite read_reply_sent|]; reflexivity.
  - intros Hp Hr Hl Hcb Ha.
    assert (Hb : encode m <> []).
    { intros E. apply Hne.
      rewrite <- (string_of_list_byte_of_string m).
      unfold encode in E. rewrite E. reflexivity. }
    assert (Hd : decode (strip wire) = Ok m).
    { unfold wire. rewrite (strip_framed (encode m) Hb Hs).
      unfold decode. rewrite Hv. unfold encode.
      rewrite string_of_list_byte_of_string. reflexivity. }
    assert (He : String.eqb m EmptyString = false)
      by (apply String.eqb_neq; exact Hne).
    destruct (dispatch_block_enters Request srv w (set_data m f) Hl Hcb Ha)
      as (tr1 & f1 & E1 & T1 & D1 & I1).
    destruct (respond_block_spec dumps_json_debug srv w f1)
      as (c & tr2 & f2 & E2 & T2 & D2 & _).
    rewrite (loop_body_serve Request dumps_json_debug srv w f f1 wire m
                             Hp Hr Hd He E1), E2.
    simpl. split; [rewrite D2, D1; reflexivity|].
    simpl in T1, I1. rewrite T1, <- app_assoc in T2.
    rewrite (new_events_app f f2 _ T2).
    apply in_or_app. left. exact I1.
Qed.

Lemma append_nil_r (a : str) : (a ++ EmptyString)%string = a.
Proof.
  induction a as [|c a IH]; simpl; [reflexivity|]. rewrite IH. reflexivity.
Qed.

Lemma append_assoc (a b c : str) :
  ((a ++ b) ++ c)%string = (a ++ (b ++ c))%string.
Proof.
  induction a as [|x a IH]; simpl; [reflexivity|]. rewrite IH. reflexivity.
Qed.

Lemma iter_count_recv (n : nat) (s : UnixSocketServerProxy.sock) :
  Nat.iter n UnixSocketServerProxy.count_recv
           (UnixSocketServerProxy.count_recv s)
  = UnixSocketServerProxy.count_recv
      (Nat.iter n UnixSocketServerProxy.count_recv s).
Proof.
  induction n as [|n IH]; simpl; [reflexivity|]. rewrite IH. reflexivity.
Qed.

(** The client reads every chunk that keeps it reading, adding the
    decoded text to what it has. *)
Lemma read_open_chunks (pre : list bytes) (rest : list (result bytes))
                       (rv : str) (s : UnixSocketServerProxy.sock) :
  forallb open_chunk pre = true ->
  UnixSocketServerProxy.read_reply (map Ok pre ++ rest) rv s
  = UnixSocketServerProxy.read_reply
      rest (rv ++ string_of_list_byte (List.concat pre))%string
      (Nat.iter (List.length pre) UnixSocketServerProxy.count_recv s).
Proof.
  revert rv s. induction pre as [|c pre IH]; intros rv s H; simpl.
  - rewrite append_nil_r. reflexivity.
  - simpl in H. apply andb_prop in H as [Hc Hpre].
    destruct c as [|b c']; [discriminate|].
    unfold open_chunk in Hc. apply andb_prop in Hc as [Hv Hlf].
    unfold decode. rewrite Hv.
    unfold ends_with_lf in Hlf.
    destruct (rev (b :: c')) as [|last l] eqn:Er.
    { apply (f_equal (@List.length byte)) in Er.
      rewrite length_rev in Er. discriminate. }
    apply negb_true_iff in Hlf. rewrite Hlf.
    rewrite (IH _ _ Hpre), string_of_list_byte_app, append_assoc,
            iter_count_recv.
    reflexivity.
Qed.

(** X6. The proxy returns a reply exactly at the first chunk that
    ends in a line feed: every chunk before it was not empty, valid
    UTF-8 and not ending in a line feed; what is returned is all the
    text read so far; and nothing after that chunk is read. *)
Theorem reply_is_first_terminated_chunk
    (inbox : list (result bytes)) (rv r : str)
    (s s' : UnixSocketServerProxy.sock) :
  UnixSocketServerProxy.read_reply inbox rv s
  = (UnixSocketServerProxy.Reply r, s') ->
  exists pre c rest,
    inbox = map Ok pre ++ Ok c :: rest
    /\ forallb open_chunk pre = true
    /\ utf8_valid c = true /\ ends_with_lf c = true
    /\ r = (rv ++ string_of_list_byte (List.concat pre ++ c))%string
    /\ UnixSocketServerProxy.recv_calls s'
       = UnixSocketServerProxy.recv_calls s + List.length pre + 1.
Proof.
  revert rv s. induction inbox as [|x inbox IH]; intros rv s; simpl;
    [discriminate|].
  destruct x as [chunk|e]; [|discriminate].
  unfold decode. destruct (utf8_valid chunk) eqn:Hv; [|discriminate].
  destruct (rev chunk) as [|last l] eqn:Er; [discriminate|].
  destruct (Byte.eqb last x0a) eqn:El.
  - intros H. inversion H; subst. clear H.
    exists [], chunk, inbox. simpl.
    unfold ends_with_lf. rewrite Er, El.
    repeat split; auto. lia.
  - intros H. destruct (IH _ _ H) as (pre & c & rest & E & Ho & Hc & Hl & Hr & Hn).
    exists (chunk :: pre), c, rest. subst inbox.
    assert (Hchunk : open_chunk chunk = true).
    { unfold open_chunk, ends_with_lf. rewrite Er, El, Hv.
      destruct chunk; [discriminate Er | reflexivity]. }
    simpl. rewrite Hchunk, Ho.
    repeat split; auto.
    + rewrite Hr, <- app_assoc, (string_of_list_byte_app chunk), append_assoc.
      reflexivity.
    + rewrite Hn. simpl. lia.
Qed.

(** X7. When the daemon closes the connection before the line feed
    (an empty read), the proxy raises [IndexError]: the reads before
    it kept the loop going, and [reply[-1]] has nothing to look at. *)
Theorem closed_before_line_feed
    (pre : list bytes) (rest : list (result bytes)) (rv : str)
    (s : UnixSocketServerProxy.sock) :
  forallb open_chunk pre = true ->
  fst (UnixSocketServerProxy.read_reply (map Ok pre ++ Ok [] :: rest) rv s)
  = UnixSocketServerProxy.Raised IndexError.
Proof.
  intros H. rewrite (read_open_chunks pre _ rv s H). reflexivity.
Qed.

(** X8. Each chunk is decoded on its own: a chunk that is not valid
    UTF-8 by itself makes the proxy raise [UnicodeDecodeError], also
    when it is the first part of a character that the next chunk
    completes. *)
Theorem chunk_decoded_alone
    (pre : list bytes) (c : bytes) (rest : list (result bytes)) (rv : str)
    (s : UnixSocketServerProxy.sock) :
  forallb open_chunk pre = true ->
  utf8_valid c = false ->
  fst (UnixSocketServerProxy.read_reply (map Ok pre ++ Ok c :: rest) rv s)
  = UnixSocketServerProxy.Raised UnicodeDecodeError.
Proof.
  intros H Hc. rewrite (read_open_chunks pre _ rv s H). simpl.
  unfold decode. rewrite Hc. reflexivity.
Qed.

Lemma split_before_last (A : Type) (a t bs : list A) (x : A) :
  a ++ t = bs ++ [x] -> t <> [] ->
  exists bs', bs = a ++ bs' /\ t = bs' ++ [x].
Proof.
  revert bs. induction a as [|y a IH]; intros bs H Ht; simpl in *.
  - exists bs. auto.
  - destruct bs as [|b bs]; simpl in H.
    + inversion H. destruct a; simpl in *; [contradiction | discriminate].
    + inversion H; subst.
      destruct (IH bs H2 Ht) as (bs' & -> & ->).
      exists bs'. auto.
Qed.

Lemma lf_free_open (c : bytes) :
  c <> [] -> ascii_only c = true -> lf_free c = true -> open_chunk c = true.
Proof.
  intros Hne Ha Hl. destruct c as [|b c]; [contradiction|].
  unfold open_chunk. rewrite (ascii_utf8_valid _ Ha). simpl.
  unfold ends_with_lf.
  destruct (rev (b :: c)) as [|last l] eqn:Er; [reflexivity|].
  assert (Hin : In last (b :: c)).
  { apply in_rev. rewrite Er. left. reflexivity. }
  unfold lf_free in Hl. rewrite forallb_forall in Hl.
  exact (Hl last Hin).
Qed.

Lemma read_ascii_frame (chunks : list bytes) (bs : bytes)
                       (rest : list (result bytes)) (rv : str)
                       (s : UnixSocketServerProxy.sock) :
  ascii_only bs = true -> lf_free bs = true ->
  Forall (fun c => c <> []) chunks ->
  List.concat chunks = bs ++ [x0a] ->
  UnixSocketServerProxy.read_reply (map Ok chunks ++ rest) rv s
  = (UnixSocketServerProxy.Reply
       (rv ++ string_of_list_byte (bs ++ [x0a]))%string,
     Nat.iter (List.length chunks) UnixSocketServerProxy.count_recv s).
Proof.
  revert bs rv s. induction chunks as [|c cs IH]; intros bs rv s Ha Hl Hne Hc.
  - simpl in Hc. destruct bs; discriminate.
  - inversion Hne as [|? ? Hc0 Hcs]; subst.
    destruct cs as [|c2 cs'].
    + simpl in Hc. rewrite app_nil_r in Hc. subst c. simpl.
      unfold decode.
      assert (Hv : utf8_valid (bs ++ [x0a]) = true).
      { apply ascii_utf8_valid. unfold ascii_only in *.
        rewrite forallb_app, Ha. reflexivity. }
      rewrite Hv, rev_app_distr. reflexivity.
    + simpl in Hc.
      assert (Ht : c2 ++ List.concat cs' <> []).
      { inversion Hcs; subst. destruct c2; [contradiction | discriminate]. }
      destruct (split_before_last _ c _ bs x0a Hc Ht) as (bs' & -> & Hc').
      unfold ascii_only, lf_free in Ha, Hl.
      rewrite forallb_app in Ha, Hl.
      apply andb_prop in Ha as [Ha1 Ha2]. apply andb_prop in Hl as [Hl1 Hl2].
      pose proof (lf_free_open c Hc0 Ha1 Hl1) as Ho.
      change (map Ok (c :: c2 :: cs') ++ rest)
        with (map Ok [c] ++ (map Ok (c2 :: cs') ++ rest)).
      rewrite (read_open_chunks [c] _ rv s); [|simpl; rewrite Ho; reflexivity].
      rewrite (IH bs' _ _ Ha2 Hl2 Hcs Hc').
      simpl List.concat. rewrite app_nil_r.
      rewrite <- app_assoc, (string_of_list_byte_app c), append_assoc.
      simpl. rewrite iter_count_recv. reflexivity.
Qed.

(** X9. From the handler back to the proxy: a frame as the handler
    writes it (serialised response, then a line feed), if the
    serialisation is ASCII without line feeds as [json.dumps] yields
    it, is read back whole by the proxy however the stream cuts it
    into non-empty chunks; the proxy reads exactly these chunks. *)
Theorem frame_reassembled
    (js : str) (chunks : list bytes) (rest : list (result bytes))
    (rv : str) (s : UnixSocketServerProxy.sock) :
  ascii_only (encode js) = true -> lf_free (encode js) = true ->
  Forall (fun c => c <> []) chunks ->
  List.concat chunks = encode (js ++ newline)%string ->
  UnixSocketServerProxy.read_reply (map Ok chunks ++ rest) rv s
  = (UnixSocketServerProxy.Reply (rv ++ (js ++ newline))%string,
     Nat.iter (List.length chunks) UnixSocketServerProxy.count_recv s).
Proof.
  intros Ha Hl Hne Hc.
  rewrite encode_app, encode_newline in Hc.
  rewrite (read_ascii_frame chunks (encode js) rest rv s Ha Hl Hne Hc).
  rewrite string_of_list_byte_app. unfold encode.
  rewrite string_of_list_byte_of_string. reflexivity.
Qed.

Lemma message_reaches_dispatcher_witness :
  let f' := snd (loop_body Samples.Request_accepting Samples.dumps
                           Samples.walletd
                           (Samples.receiving [x7b; x7d; x0a])
                           initial_frame) in
  data f' = "{}" /\ In (EvDispatch "{}") (new_events initial_frame f').
Proof.
  assert (Hne : "{}" <> EmptyString) by discriminate.
  exact (proj2 (message_reaches_dispatcher
                  Samples.Request_accepting Samples.dumps Samples.walletd
                  "{}" true [] UnixSocketServerProxy.fresh_sock
                  (Samples.receiving [x7b; x7d; x0a]) initial_frame
                  eq_refl eq_refl Hne)
               eq_refl eq_refl eq_refl eq_refl eq_refl).
Defined.

Lemma reply_is_first_terminated_chunk_witness :
  exists pre c rest,
    [Ok [x7b]; Ok [x7d; x0a]; Ok [x41]] = map Ok pre ++ Ok c :: rest
    /\ forallb open_chunk pre = true
    /\ utf8_valid c = true /\ ends_with_lf c = true
    /\ ("{}" ++ newline)%string
       = (EmptyString ++ string_of_list_byte (List.concat pre ++ c))%string
    /\ 2 = 0 + List.length pre + 1.
Proof.
  exact (reply_is_first_terminated_chunk
           [Ok [x7b]; Ok [x7d; x0a]; Ok [x41]]
           EmptyString ("{}" ++ newline)%string
           UnixSocketServerProxy.fresh_sock
           {| UnixSocketServerProxy.connected := false;
              UnixSocketServerProxy.sent := [];
              UnixSocketServerProxy.recv_calls := 2 |}
           eq_refl).
Defined.

Lemma closed_before_line_feed_witness :
  fst (UnixSocketServerProxy.read_reply
         [Ok [x7b]; Ok []] EmptyString UnixSocketServerProxy.fresh_sock)
  = UnixSocketServerProxy.Raised IndexError.
Proof.
  exact (closed_before_line_feed [[x7b]] [] EmptyString
                                 UnixSocketServerProxy.fresh_sock eq_refl).
Defined.

(** The two bytes of U+00E9 arrive in two reads. *)
Lemma chunk_decoded_alone_witness :
  utf8_valid [xc3; xa9; x0a] = true
  /\ fst (UnixSocketServerProxy.read_reply
            [Ok [xc3]; Ok [xa9; x0a]] EmptyString
            UnixSocketServerProxy.fresh_sock)
     = UnixSocketServerProxy.Raised UnicodeDecodeError.
Proof.
  split; [reflexivity|].
  exact (chunk_decoded_alone [] [xc3] [Ok [xa9; x0a]] EmptyString
                             UnixSocketServerProxy.fresh_sock
                             eq_refl eq_refl).
Defined.

Lemma frame_reassembled_witness :
  UnixSocketServerProxy.read_reply
    [Ok [x7b]; Ok [x7d; x0a]] EmptyString UnixSocketServerProxy.fresh_sock
  = (UnixSocketServerProxy.Reply ("{}" ++ newline)%string,
     Nat.iter 2 UnixSocketServerProxy.count_recv
              UnixSocketServerProxy.fresh_sock).
Proof.
  assert (Hne : Forall (fun c : bytes => c <> []) [[x7b]; [x7d; x0a]])
    by (repeat constructor; discriminate).
  exact (frame_reassembled
           "{}" [[x7b]; [x7d; x0a]] [] EmptyString
           UnixSocketServerProxy.fresh_sock eq_refl eq_refl Hne eq_refl).
Defined.

End RoundTripFacts.

(** ** What the constructor does to the socket path *)

Module ConstructorFacts.
Import UnixSocketJSONRPCServer Wire.

Ltac run_init :=
  unfold __init__, server_bind, bind, ret, raise, lift, gets, modify,
         try_catch, note, unlink, listen, os_result; simpl.

(** X10. The constructor probes exactly when a file is at the socket
    path, unlinks that file exactly when the probe is refused, and
    goes on to bind exactly when there was no file or the probe was
    refused. *)
Theorem probe_unlink_bind (c b : option os_error) (h : host) :
  let refused := match c with
                 | Some ConnectionRefusedError => true
                 | _ => false
                 end in
  exists tr,
    init_trace (snd (__init__ c b h)) = (init_trace h ++ tr)%list
    /\ happened EvConnect tr = socket_file_exists h
    /\ happened EvUnlink tr = socket_file_exists h && refused
    /\ happened EvBind tr = negb (socket_file_exists h) || refused.
Proof.
  destruct h as [ex bd tr0], ex, c as [[]|], b as [eb|]; run_init;
    eexists; (split; [HandlerFacts.trace_shape|]); repeat split.
Qed.

(** X11. The constructor succeeds exactly when the bind is reached
    and does not fail; then a listening socket is at the path. When
    it raises, this server is not listening and no file has been
    created: a file is at the path afterwards only if one was there
    before. *)
Theorem constructor_outcome (c b : option os_error) (h : host) :
  let refused := match c with
                 | Some ConnectionRefusedError => true
                 | _ => false
                 end in
  let reaches_bind := negb (socket_file_exists h) || refused in
  let bind_fails := match b with
                    | Some _ => true
                    | None => false
                    end in
  match __init__ c b h with
  | (Ok _, h') =>
    reaches_bind = true /\ bind_fails = false
    /\ socket_file_exists h' = true /\ bound h' = true
  | (Raise _, h') =>
    reaches_bind && negb bind_fails = false
    /\ bound h' = bound h
    /\ implb (socket_file_exists h') (socket_file_exists h) = true
  end.
Proof.
  destruct h as [ex bd tr0], ex, c as [[]|], b as [eb|]; run_init;
    repeat split.
Qed.

End ConstructorFacts.

(** ** The wallet command line *)

Module CliFacts.
Import WalletCLI.
Local Open Scope list_scope.

Ltac run_cmd :=
  unfold handle_exceptions, create_passphrase, startdaemon, uninstalldaemon,
         restore, andthen, done, halted, say, local in *;
  simpl in *.

(** X12. When the wrapped command raises an exception that has a
    [message] attribute, the wrapper does not exit with code 1 but
    ends in [UnboundLocalError], and echoes nothing: for the daemon's
    lock timeout after logging the message with ". Please try again."
    appended (no traceback was saved), for every other message before
    anything is logged (no text was chosen). *)
Theorem exception_with_message_is_unbound
    (A : Type) (custom_msg : string) (hasHandlers : bool)
    (e : exception) (m : string) (out : list output) :
  message e = Some m ->
  handle_exceptions (A := A) custom_msg hasHandlers (inr e) out
  = if String.eqb m "Timed out waiting for lock"
    then (inr (UnboundLocal "tb"),
          out ++ [LogError (m ++ ". Please try again.")])
    else (inr (UnboundLocal "msg"), out).
Proof.
  intros H. run_cmd. rewrite H.
  destruct (String.eqb m "Timed out waiting for lock"); reflexivity.
Qed.

Lemma exception_with_message_is_unbound_witness :
  handle_exceptions (A := unit) EmptyString true
    (inr {| message := Some "Timed out waiting for lock";
            text := "Timed out waiting for lock" |}) []
  = (inr (UnboundLocal "tb"),
     [LogError "Timed out waiting for lock. Please try again."]).
Proof.
  exact (exception_with_message_is_unbound
           unit EmptyString true
           {| message := Some "Timed out waiting for lock";
              text := "Timed out waiting for lock" |}
           "Timed out waiting for lock" [] eq_refl).
Defined.

(** X13. The wrapper hands on what the command returns, silently;
    and when the command raises an exception without [message]
    attribute it logs one error (the text of the exception, prefixed
    with the custom message if there is one) and the traceback,
    echoes the error exactly when the logger has no handlers, and
    exits with code 1. *)
Theorem exception_without_message_exits
    (A : Type) (custom_msg : string) (hasHandlers : bool)
    (rv : A) (e : exception) (out : list output) :
  message e = None ->
  let msg := if nonempty custom_msg
             then (custom_msg ++ ": " ++ text e)%string
             else text e in
  handle_exceptions custom_msg hasHandlers (inl rv) out = (inl rv, out)
  /\ handle_exceptions (A := A) custom_msg hasHandlers (inr e) out
     = (inr (Exit 1),
        out ++ [LogError msg; LogTraceback]
            ++ (if hasHandlers then [] else [Echo msg])).
Proof.
  intros H. split; [reflexivity|]. run_cmd. rewrite H.
  destruct (nonempty custom_msg), hasHandlers; simpl;
    rewrite <- ?app_assoc; reflexivity.
Qed.

Lemma exception_without_message_exits_witness :
  handle_exceptions (A := unit) EmptyString false
    (inr {| message := None; text := "Insufficient balance" |}) []
  = (inr (Exit 1),
     [LogError "Insufficient balance"; LogTraceback;
      Echo "Insufficient balance"]).
Proof.
  exact (proj2 (exception_without_message_exits
                  unit EmptyString false tt
                  {| message := None; text := "Insufficient balance" |}
                  [] eq_refl)).
Defined.

(** X14. [create] asks for the passphrase at most three times, takes
    the first pair of entries that agree, and gives up with a usage
    error when the first three pairs all differ. *)
Theorem passphrase_asked_thrice
    (answers : nat -> string * string) (out : list output) :
  let agree i := String.eqb (fst (answers i)) (snd (answers i)) in
  create_passphrase true answers out
  = if agree 0 then (inl (fst (answers 0)), out ++ asked 1)
    else if agree 1 then (inl (fst (answers 1)), out ++ asked 2)
    else if agree 2 then (inl (fst (answers 2)), out ++ asked 3)
    else (inr (UsageError "Passphrases don't match. Quitting."),
          out ++ asked 3).
Proof.
  run_cmd.
  destruct (String.eqb (fst (answers 0)) (snd (answers 0))) eqn:E0; simpl.
  { rewrite E0. simpl. rewrite <- app_assoc. reflexivity. }
  destruct (String.eqb (fst (answers 1)) (snd (answers 1))) eqn:E1; simpl.
  { rewrite E1. simpl. rewrite <- !app_assoc. reflexivity. }
  destruct (String.eqb (fst (answers 2)) (snd (answers 2))) eqn:E2; simpl;
    rewrite E2; simpl; rewrite <- !app_assoc; reflexivity.
Qed.

(** X15. [startdaemon] calls [d.start()] exactly when it is outside a
    virtualenv, the wallet file is good, a daemonizer was obtained,
    the daemon is not running yet, and it is installed or has just
    been installed without error; it calls [d.install] exactly when,
    under the same conditions, the daemon is not installed and the
    data provider is one of the two it knows; inside a virtualenv it
    does not touch the daemonizer at all. *)
Theorem daemon_started_when_ready
    (virtual_env : option string) (wallet_file : bool)
    (get : string + daemonizer) (data_provider : provider) :
  let venv := match virtual_env with
              | Some v => nonempty v
              | None => false
              end in
  let known := match data_provider with
               | other_provider => false
               | _ => true
               end in
  let installs d := negb (installed d) && known in
  let out := snd (startdaemon virtual_env wallet_file get data_provider []) in
  occurs is_install out
  = negb venv && wallet_file
    && match get with
       | inr d => negb (started d) && installs d
       | inl _ => false
       end
  /\ occurs is_start out
     = negb venv && wallet_file
       && match get with
          | inr d =>
            negb (started d)
            && (installed d
                || installs d && match install d with
                                 | None => true
                                 | Some _ => false
                                 end)
          | inl _ => false
          end
  /\ venv && occurs touches_daemonizer out = false.
Proof.
  run_cmd.
  destruct virtual_env as [v|]; [destruct (nonempty v)|];
    destruct wallet_file, data_provider,
             get as [e|[[|] [|] [ei|] [es|[|]] stp un]];
    simpl; repeat split.
Qed.

(** X16. [uninstalldaemon] first stops the daemon and then echoes
    exactly one line, except when the daemon is installed and
    [d.uninstall()] returns false: then no text was chosen, nothing
    is echoed and the command ends in [UnboundLocalError]. It calls
    [d.uninstall] exactly when the stop did not raise and the daemon
    is installed. *)
Theorem uninstall_reports_once (d : daemonizer) :
  let silent_failure :=
    match stop d, installed d, uninstall d with
    | inr _, true, inr false => true
    | _, _, _ => false
    end in
  match uninstalldaemon (inr d) [] with
  | (r, out) =>
    List.hd_error out = Some Stop
    /\ occurs (fun o => match o with Uninstall => true | _ => false end) out
       = match stop d with inr _ => installed d | inl _ => false end
    /\ (if silent_failure
        then r = inr (UnboundLocal "msg") /\ echoed out = []
        else r = inl tt /\ List.length (echoed out) = 1)
  end.
Proof.
  destruct d as [st ins inst str [e|b] [e'|[|]]]; destruct ins;
    run_cmd; repeat split.
Qed.

(** X17. How [restore] ends: with code 4 when the daemon cannot be
    stopped or the user keeps the existing wallet file, with code 5
    when the mnemonic is invalid, with code 6 when the wallet written
    does not check out, and normally otherwise. The existing file is
    removed exactly when the user agreed to it, and a wallet is
    written exactly when the mnemonic was reached and is valid. *)
Theorem restore_exit_codes (w : restore_world) :
  let stopped := match get_daemonizer w with
                 | inr d => match stop d with inl _ => false | inr _ => true end
                 | inl _ => true
                 end in
  let cleared := negb (wallet_exists w) || confirm_delete w in
  match restore w [] with
  | (r, out) =>
    r = (if negb stopped then inr (Exit 4)
         else if negb cleared then inr (Exit 4)
         else if negb (mnemonic_valid w) then inr (Exit 5)
         else if negb (restored w) then inr (Exit 6)
         else inl tt)
    /\ occurs is_remove out
       = stopped && wallet_exists w && confirm_delete w
    /\ occurs is_to_file out = stopped && cleared && mnemonic_valid w
  end.
Proof.
  destruct w as [[e|[st ins inst str [e|b] un]] ex cd mn mv hp tp rs];
    destruct ex, cd, mv, hp, rs; run_cmd; repeat split.
Qed.

(** X18. [restore] checks the mnemonic only after the old wallet
    file is gone: when a file exists, the user agrees to delete it,
    and the mnemonic typed is invalid, the command exits with code 5
    having removed the file and written no wallet. *)
Theorem invalid_mnemonic_after_removal (w : restore_world) :
  match get_daemonizer w with
  | inr d => match stop d with inl _ => false | inr _ => true end
  | inl _ => true
  end = true ->
  wallet_exists w = true -> confirm_delete w = true ->
  mnemonic_valid w = false ->
  match restore w [] with
  | (r, out) =>
    r = inr (Exit 5)
    /\ occurs is_remove out = true
    /\ occurs is_import out = false
    /\ occurs is_to_file out = false
  end.
Proof.
  destruct w as [[e|[st ins inst str [e|b] un]] ex cd mn mv hp tp rs];
    simpl; intros Hs Hx Hc Hv; subst; try discriminate;
    run_cmd; repeat split.
Qed.

Lemma invalid_mnemonic_after_removal_witness :
  match restore {| get_daemonizer := inl "no init system";
                   wallet_exists := true; confirm_delete := true;
                   mnemonic := "abandon ability"; mnemonic_valid := false;
                   had_passphrase := false; typed_passphrase := EmptyString;
                   restored := false |} [] with
  | (r, out) =>
    r = inr (Exit 5)
    /\ occurs is_remove out = true
    /\ occurs is_import out = false
    /\ occurs is_to_file out = false
  end.
Proof.
  exact (invalid_mnemonic_after_removal
           {| get_daemonizer := inl "no init system";
              wallet_exists := true; confirm_delete := true;
              mnemonic := "abandon ability"; mnemonic_valid := false;
              had_passphrase := false; typed_passphrase := EmptyString;
              restored := false |}
           eq_refl eq_refl eq_refl eq_refl).
Defined.

Lemma say_all (l : list (string * Z)) (c : Cmd unit) (out out0 : list output) :
  c out = (inl tt, out0) ->
  fold_left (fun acc item => andthen acc (fun _ => say (account_line item)))
            l c out
  = (inl tt, out0 ++ map account_line l).
Proof.
  revert c out0. induction l as [|x l IH]; intros c out0 H; simpl.
  - rewrite app_nil_r. exact H.
  - rewrite (IH _ (out0 ++ [account_line x])).
    + rewrite <- app_assoc. reflexivity.
    + unfold andthen, say. rewrite H. reflexivity.
Qed.

Lemma insert_by_number_perm (x : string * Z) (l : list (string * Z)) :
  Permutation.Permutation (x :: l) (insert_by_number x l).
Proof.
  induction l as [|y l IH]; simpl; [apply Permutation.Permutation_refl|].
  destruct (snd x <=? snd y)%Z; [apply Permutation.Permutation_refl|].
  apply Permutation.perm_trans with (y :: x :: l);
    [apply Permutation.perm_swap | apply Permutation.perm_skip, IH].
Qed.

Lemma insert_by_number_sorted (x : string * Z) (l : list (string * Z)) :
  Sorted.Sorted (fun a b => (snd a <= snd b)%Z) l ->
  Sorted.Sorted (fun a b => (snd a <= snd b)%Z) (insert_by_number x l).
Proof.
  induction l as [|y l IH]; simpl; intros H.
  - repeat constructor.
  - destruct (snd x <=? snd y)%Z eqn:E.
    + constructor; [exact H|]. constructor. apply Z.leb_le. exact E.
    + apply Z.leb_gt in E. inversion H as [|? ? Hs Hh]; subst.
      constructor; [exact (IH Hs)|].
      destruct l as [|z l]; simpl.
      * constructor. lia.
      * destruct (snd x <=? snd z)%Z; constructor;
          [lia | inversion Hh; assumption].
Qed.

(** X19. [listaccounts] prints one line for every account of the
    wallet and nothing else, in the order of increasing account
    number. *)
Theorem accounts_listed_by_number
    (account_map : list (string * Z)) (out : list output) :
  exists order,
    Permutation.Permutation account_map order
    /\ Sorted.Sorted (fun a b => (snd a <= snd b)%Z) order
    /\ list_accounts account_map out
       = (inl tt, out ++ map account_line order).
Proof.
  exists (sorted_by_number account_map). split; [|split].
  - induction account_map as [|x l IH]; simpl;
      [apply Permutation.Permutation_refl|].
    apply Permutation.perm_trans with (x :: sorted_by_number l);
      [apply Permutation.perm_skip, IH | apply insert_by_number_perm].
  - induction account_map as [|x l IH]; simpl; [constructor|].
    apply insert_by_number_sorted, IH.
  - unfold list_accounts. apply say_all. reflexivity.
Qed.

End CliFacts.

(** ** Whole connections *)

Module ConnectionFacts.
Import UnixSocketJSONRPCServer Connection HandlerFacts.
Local Open Scope list_scope.

Section Server.

Variable Request : str -> result request.
Variable dumps_json_debug : Response -> option str.
Variable srv : server.

(** A connection that is still open goes on with the passes that
    follow. *)
Lemma handle_app (ws0 ws : list world) (f f0 : frame) :
  handle Request dumps_json_debug srv ws0 f = (Polling, f0) ->
  handle Request dumps_json_debug srv (ws0 ++ ws) f
  = handle Request dumps_json_debug srv ws f0.
Proof.
  revert f. induction ws0 as [|w ws0 IH]; intros f; simpl.
  - intros H. inversion H. reflexivity.
  - destruct (loop_body Request dumps_json_debug srv w f)
      as [[[|r]|e] f1]; [apply IH | discriminate | discriminate].
Qed.








(** C8 (the failing input). On a connection that is still open, a
    chunk that is not valid UTF-8 makes [handle] end by a propagating
    [UnicodeDecodeError]: the handler is left, and by none of the
    close transitions. It is the read on line 39, outside both [try]
    blocks. *)
Theorem garbled_chunk_ends_handle (ws0 ws : list world) (f f0 : frame) :
  handle Request dumps_json_debug srv ws0 f = (Polling, f0) ->
  handle Request dumps_json_debug srv (ws0 ++ garbled :: ws) f
  = (Propagated UnicodeDecodeError, f0)
  /\ forall r, ~ close_transition garbled r.
Proof.
  intros H0. split.
  - rewrite (handle_app ws0 (garbled :: ws) f f0 H0). reflexivity.
  - intros [| |]; simpl.
    + intros (_ & chunk & Hr & Hd). inversion Hr; subst. discriminate Hd.
    + intros [Hp _]. discriminate Hp.
    + intros [_ Hs]. discriminate Hs.
Qed.

End Server.

Import Samples.





(** The first request is answered, then the garbled chunk arrives. *)
Lemma garbled_chunk_ends_handle_witness :
  fst (handle Request_accepting dumps walletd [served; garbled; served]
              initial_frame)
  = Propagated UnicodeDecodeError
  /\ forall r, ~ close_transition garbled r.
Proof.
  destruct (garbled_chunk_ends_handle
              Request_accepting dumps walletd [served] [served]
              initial_frame
              (snd (handle Request_accepting dumps walletd [served]
                           initial_frame))
              eq_refl) as [H1 H2].
  split; [|exact H2].
  change [served; garbled; served] with ([served] ++ garbled :: [served]).
  rewrite H1. reflexivity.
Defined.

End ConnectionFacts.
